(** * my-matcha: the sushi extraction pipeline of [scripts/extract_sushi.py]

    A shallow embedding of the classifier [is_sushi_shop], the locality
    filter [matches_prefecture], the property builder [extract_properties],
    the two osmium handlers [NodeCollector] and [SushiExtractor], and
    [deduplicate_features], followed by the properties the specification
    states about them.

    Conventions.
    - A Python [str] is a sequence of Unicode code points: [pystr := list N].
      Source literals are written as UTF-8 text and read by [u].
    - A tag dictionary ([dict(n.tags)]) is a [gmap pystr pystr];
      [tags.get(k, "")] is [tag tags k].
    - [str.lower()] is computed position by position as CPython does; the
      per-character case table belongs to the Unicode database and not to
      this repository, so it is a parameter ([UnicodeData]).
    - Coordinates are Python floats.  The classes [PyArith] and [PyKey]
      collect the float operations the code uses ([sum], [/], [round],
      [==]); every definition is generic in them, and the instances
      [float_arith] (IEEE binary64) and [int_key] (Python integers) give
      concrete arithmetic where a statement needs it. *)

From Stdlib Require Import ZArith NArith List Ascii String Floats Uint63.
From stdpp Require Import gmap strings list fin_maps pretty.
Import ListNotations.

Local Open Scope N_scope.

(* ===================================================================== *)
(** ** Python strings *)
(* ===================================================================== *)

Abbreviation pystr := (list N).

(** Decoding of a UTF-8 byte sequence into code points (1- to 4-byte
    forms); used only to read the literals of the source. *)
Fixpoint utf8_decode (bs : list N) : list N :=
  match bs with
  | [] => []
  | b0 :: r0 =>
    if b0 <? 0x80 then b0 :: utf8_decode r0
    else if b0 <? 0xE0 then
      match r0 with
      | b1 :: r1 =>
        N.lor (N.shiftl (N.land b0 0x1F) 6) (N.land b1 0x3F) :: utf8_decode r1
      | _ => []
      end
    else if b0 <? 0xF0 then
      match r0 with
      | b1 :: b2 :: r2 =>
        N.lor (N.shiftl (N.land b0 0x0F) 12)
              (N.lor (N.shiftl (N.land b1 0x3F) 6) (N.land b2 0x3F))
          :: utf8_decode r2
      | _ => []
      end
    else
      match r0 with
      | b1 :: b2 :: b3 :: r3 =>
        N.lor (N.shiftl (N.land b0 0x07) 18)
              (N.lor (N.shiftl (N.land b1 0x3F) 12)
                     (N.lor (N.shiftl (N.land b2 0x3F) 6) (N.land b3 0x3F)))
          :: utf8_decode r3
      | _ => []
      end
  end.

(** [u "..."] is the Python string written by the literal. *)
Definition u (s : string) : pystr :=
  utf8_decode (map N_of_ascii (list_ascii_of_string s)).

(** [p in s] on two [str]: [s] has [p] as a contiguous run. *)
Fixpoint startswith (p s : pystr) : bool :=
  match p, s with
  | [], _ => true
  | _ :: _, [] => false
  | c :: p', d :: s' => (c =? d) && startswith p' s'
  end.

Fixpoint contains (p s : pystr) : bool :=
  startswith p s ||
  match s with
  | [] => false
  | _ :: s' => contains p s'
  end.

(** The declarative reading of [p in s]. *)
Definition substring (p s : pystr) : Prop :=
  ∃ pre post, s = pre ++ p ++ post.

(** *** [str.lower()]

    CPython lowers a string one position at a time: U+03A3 (capital sigma)
    is resolved by its context, every other code point by the full
    lower-case mapping of the Unicode database, which may give several
    code points.  Both tables are external to the repository. *)
Class UnicodeData := {
  to_lower_full : N → list N;
  handle_capital_sigma : pystr → nat → N
}.

(** The case table restricted to ASCII (identity elsewhere): CPython's
    table on every string whose cased characters are ASCII letters. *)
Definition ascii_lower (c : N) : N :=
  if (0x41 <=? c) && (c <=? 0x5A) then c + 0x20 else c.

Definition ascii_unicode_data : UnicodeData :=
  {| to_lower_full := fun c => [ascii_lower c];
     handle_capital_sigma := fun _ _ => 0x3C3 |}.

Section Lower.
Context {UD : UnicodeData}.

Definition lower_ucs4 (s : pystr) (i : nat) (c : N) : list N :=
  if c =? 0x3A3 then [handle_capital_sigma s i] else to_lower_full c.

Definition lower (s : pystr) : pystr := concat (imap (lower_ucs4 s) s).

(** What the statements below assume of the Unicode table: on ASCII it
    is the ASCII lower-casing ... *)
Definition ascii_case_law : Prop :=
  ∀ c, c < 0x80 → to_lower_full c = [ascii_lower c].

(** ... and the code points of [cs] have no case. *)
Definition caseless (cs : list N) : Prop :=
  Forall (fun c => to_lower_full c = [c]) cs.
End Lower.

(* ===================================================================== *)
(** ** Tags and the classifier *)
(* ===================================================================== *)

Abbreviation Tags := (gmap pystr pystr).

(** [tags.get(k, "")] *)
Definition tag (tags : Tags) (k : string) : pystr :=
  default [] (tags !! u k).

Definition sushi_keywords : list pystr :=
  [u "寿司"; u "すし"; u "スシ"; u "鮨"; u "sushi"].

Section Classifier.
Context {UD : UnicodeData}.

Definition is_sushi_shop (tags : Tags) : bool :=
  let amenity := tag tags "amenity" in
  let shop := tag tags "shop" in
  let cuisine := lower (tag tags "cuisine") in
  let name := tag tags "name" in
  let has_sushi_cuisine := contains (u "sushi") cuisine in
  let has_sushi_name :=
    existsb (fun kw => contains kw (lower name)) sushi_keywords in
  if bool_decide (amenity = u "restaurant") && has_sushi_cuisine then true
  else if bool_decide (amenity = u "restaurant") && has_sushi_name then true
  else if bool_decide (shop = u "seafood") && has_sushi_name then true
  else if bool_decide (amenity = u "fast_food") && has_sushi_cuisine then true
  else false.
End Classifier.

(* ===================================================================== *)
(** ** The locality filter *)
(* ===================================================================== *)

Definition entry (k : string) (vs : list string) : pystr * list pystr :=
  (u k, map u vs).

(** The prefecture table, key by key as the source writes it (the keys are
    distinct, so the order of insertion does not matter). *)
Definition PREFECTURE_MAP : gmap pystr (list pystr) :=
  list_to_map [
    entry "tokyo" ["東京都"; "東京"; "Tokyo"];
    entry "osaka" ["大阪府"; "大阪"; "Osaka"];
    entry "kyoto" ["京都府"; "京都"; "Kyoto"];
    entry "hokkaido" ["北海道"; "Hokkaido"];
    entry "kanagawa" ["神奈川県"; "神奈川"; "Kanagawa"];
    entry "aichi" ["愛知県"; "愛知"; "Aichi"];
    entry "fukuoka" ["福岡県"; "福岡"; "Fukuoka"];
    entry "hyogo" ["兵庫県"; "兵庫"; "Hyogo"];
    entry "saitama" ["埼玉県"; "埼玉"; "Saitama"];
    entry "chiba" ["千葉県"; "千葉"; "Chiba"];
    entry "shizuoka" ["静岡県"; "静岡"; "Shizuoka"];
    entry "hiroshima" ["広島県"; "広島"; "Hiroshima"];
    entry "miyagi" ["宮城県"; "宮城"; "Miyagi"];
    entry "niigata" ["新潟県"; "新潟"; "Niigata"];
    entry "nagano" ["長野県"; "長野"; "Nagano"];
    entry "okinawa" ["沖縄県"; "沖縄"; "Okinawa"];
    entry "ibaraki" ["茨城県"; "茨城"; "Ibaraki"];
    entry "tochigi" ["栃木県"; "栃木"; "Tochigi"];
    entry "gunma" ["群馬県"; "群馬"; "Gunma"];
    entry "nara" ["奈良県"; "奈良"; "Nara"];
    entry "mie" ["三重県"; "三重"; "Mie"];
    entry "gifu" ["岐阜県"; "岐阜"; "Gifu"];
    entry "okayama" ["岡山県"; "岡山"; "Okayama"];
    entry "kumamoto" ["熊本県"; "熊本"; "Kumamoto"];
    entry "kagoshima" ["鹿児島県"; "鹿児島"; "Kagoshima"];
    entry "yamaguchi" ["山口県"; "山口"; "Yamaguchi"];
    entry "nagasaki" ["長崎県"; "長崎"; "Nagasaki"];
    entry "ehime" ["愛媛県"; "愛媛"; "Ehime"];
    entry "aomori" ["青森県"; "青森"; "Aomori"];
    entry "iwate" ["岩手県"; "岩手"; "Iwate"];
    entry "yamagata" ["山形県"; "山形"; "Yamagata"];
    entry "fukushima" ["福島県"; "福島"; "Fukushima"];
    entry "akita" ["秋田県"; "秋田"; "Akita"];
    entry "toyama" ["富山県"; "富山"; "Toyama"];
    entry "ishikawa" ["石川県"; "石川"; "Ishikawa"];
    entry "fukui" ["福井県"; "福井"; "Fukui"];
    entry "yamanashi" ["山梨県"; "山梨"; "Yamanashi"];
    entry "wakayama" ["和歌山県"; "和歌山"; "Wakayama"];
    entry "tottori" ["鳥取県"; "鳥取"; "Tottori"];
    entry "shimane" ["島根県"; "島根"; "Shimane"];
    entry "tokushima" ["徳島県"; "徳島"; "Tokushima"];
    entry "kagawa" ["香川県"; "香川"; "Kagawa"];
    entry "kochi" ["高知県"; "高知"; "Kochi"];
    entry "saga" ["佐賀県"; "佐賀"; "Saga"];
    entry "oita" ["大分県"; "大分"; "Oita"];
    entry "miyazaki" ["宮崎県"; "宮崎"; "Miyazaki"]
  ].

Section Locality.
Context {UD : UnicodeData}.

Definition matches_prefecture (tags : Tags) (pref_filter : option pystr) : bool :=
  match pref_filter with
  | None => true
  | Some pf =>
    let pref_names := default [pf] (PREFECTURE_MAP !! lower pf) in
    let addr_pref := tag tags "addr:prefecture" in
    if existsb (fun p => contains p addr_pref) pref_names then true
    else
      let addr_full := tag tags "addr:full" in
      if existsb (fun p => contains p addr_full) pref_names then true
      else
        let addr_city := tag tags "addr:city" in
        if existsb (fun p => contains p addr_city) pref_names then true
        else false
  end.
End Locality.

(* ===================================================================== *)
(** ** Properties of a feature *)
(* ===================================================================== *)

Record Properties := {
  osm_id : pystr;
  name : pystr;
  name_reading : pystr;
  amenity : pystr;
  shop : pystr;
  cuisine : pystr;
  addr_prefecture : pystr;
  addr_city : pystr;
  addr_full : pystr;
  source : pystr
}.

(** [x or y] where [x] is the result of [tags.get(k)]: [None] and the
    empty string are false. *)
Definition py_or (x : option pystr) (y : pystr) : pystr :=
  match x with
  | Some (c :: s) => c :: s
  | _ => y
  end.

Definition extract_properties (osm_id : pystr) (tags : Tags) : Properties :=
  let name_reading :=
    py_or (tags !! u "name:ja-Hira")
      (py_or (tags !! u "name:ja_kana")
        (py_or (tags !! u "name:ja_rm")
          (py_or (tags !! u "name:ja") []))) in
  {| osm_id := osm_id;
     name := tag tags "name";
     name_reading := name_reading;
     amenity := tag tags "amenity";
     shop := tag tags "shop";
     cuisine := tag tags "cuisine";
     addr_prefecture := tag tags "addr:prefecture";
     addr_city := tag tags "addr:city";
     addr_full := tag tags "addr:full";
     source := u "OSM" |}.

(* ===================================================================== *)
(** ** Numbers, entities and features *)
(* ===================================================================== *)

(** The arithmetic of the centroid: the builtin [sum] over the collected
    longitudes (or latitudes) and the true division by [len(coords)]. *)
Class PyArith (num : Type) := {
  py_sum : list num → num;
  py_truediv : num → nat → num
}.

(** The arithmetic of the deduplication key: [round(x, ndigits)] and [==]. *)
Class PyKey (num : Type) := {
  py_round : num → Z → num;
  py_eq : num → num → bool
}.

(** An osmium location is usable only when [valid()]; [None] is a
    location that is not. *)
Record Node (num : Type) := {
  n_id : Z;
  n_location : option (num * num);
  n_tags : Tags
}.

Arguments n_id {num} n.
Arguments n_location {num} n.
Arguments n_tags {num} n.

Record Way := {
  w_id : Z;
  w_tags : Tags;
  w_nodes : list Z
}.

(** The [type] of a relation member: ['n'], ['w'] or ['r']. *)
Inductive member_type := type_n | type_w | type_r.

Record Member := {
  m_type : member_type;
  m_ref : Z
}.

Record Relation := {
  r_id : Z;
  r_tags : Tags;
  r_members : list Member
}.

Inductive Entity (num : Type) :=
| ENode (n : Node num)
| EWay (w : Way)
| ERelation (r : Relation).

Arguments ENode {num} n.
Arguments EWay {num} w.
Arguments ERelation {num} r.

(** A GeoJSON feature: the point [coordinates] ([lon], [lat]) of its
    geometry and its [properties]; the ["type"] markers are constants. *)
Record Feature (num : Type) := {
  coordinates : num * num;
  properties : Properties
}.

Arguments coordinates {num} f.
Arguments properties {num} f.

#[global] Instance member_type_eq_dec : EqDecision member_type.
Proof. solve_decision. Defined.

(** [f"{kind}/{id}"] *)
Definition qualified_id (kind : string) (id : Z) : pystr :=
  u kind ++ u "/" ++ u (pretty id).

(* ===================================================================== *)
(** ** First pass: the coordinate index *)
(* ===================================================================== *)

Module NodeCollector.
Section Handler.
Context {num : Type}.

Definition node (node_coords : gmap Z (num * num)) (n : Node num)
  : gmap Z (num * num) :=
  match n_location n with
  | Some (lon, lat) => <[n_id n := (lon, lat)]> node_coords
  | None => node_coords
  end.

Definition handle (node_coords : gmap Z (num * num)) (e : Entity num)
  : gmap Z (num * num) :=
  match e with
  | ENode n => node node_coords n
  | _ => node_coords
  end.

Definition apply_file (input : list (Entity num)) : gmap Z (num * num) :=
  fold_left handle input ∅.
End Handler.
End NodeCollector.

(* ===================================================================== *)
(** ** Second pass: classification, geometry and feature building *)
(* ===================================================================== *)

Module SushiExtractor.
Section Handler.
Context {UD : UnicodeData} {num : Type} {PA : PyArith num}.

(** The handler's fields ([way_nodes] is initialised and never used). *)
Record t := {
  node_coords : gmap Z (num * num);
  pref_filter : option pystr;
  features : list (Feature num)
}.

Definition init (node_coords : gmap Z (num * num)) (pref_filter : option pystr) : t :=
  {| node_coords := node_coords; pref_filter := pref_filter; features := [] |}.

(** [self.features.append(feature)] *)
Definition append (self : t) (feature : Feature num) : t :=
  {| node_coords := node_coords self;
     pref_filter := pref_filter self;
     features := features self ++ [feature] |}.

(** The centroid feature shared by [way] and [relation]. *)
Definition centroid_feature (coords : list (num * num)) (id : pystr) (tags : Tags)
  : Feature num :=
  let lon := py_truediv (py_sum (map fst coords)) (length coords) in
  let lat := py_truediv (py_sum (map snd coords)) (length coords) in
  {| coordinates := (lon, lat); properties := extract_properties id tags |}.

Definition node (self : t) (n : Node num) : t :=
  match n_location n with
  | None => self
  | Some (lon, lat) =>
    let tags := n_tags n in
    if negb (is_sushi_shop tags) then self
    else if negb (matches_prefecture tags (pref_filter self)) then self
    else
      append self
        {| coordinates := (lon, lat);
           properties := extract_properties (qualified_id "node" (n_id n)) tags |}
  end.

Definition way (self : t) (w : Way) : t :=
  let tags := w_tags w in
  if negb (is_sushi_shop tags) then self
  else if negb (matches_prefecture tags (pref_filter self)) then self
  else
    let coords := omap (fun ref => node_coords self !! ref) (w_nodes w) in
    match coords with
    | [] => self
    | _ :: _ =>
      append self (centroid_feature coords (qualified_id "way" (w_id w)) tags)
    end.

Definition relation (self : t) (r : Relation) : t :=
  let tags := r_tags r in
  if negb (is_sushi_shop tags) then self
  else if negb (matches_prefecture tags (pref_filter self)) then self
  else
    let coords :=
      omap (fun member =>
              if bool_decide (m_type member = type_n)
              then node_coords self !! m_ref member
              else None)
           (r_members r) in
    match coords with
    | [] => self
    | _ :: _ =>
      append self (centroid_feature coords (qualified_id "relation" (r_id r)) tags)
    end.

Definition handle (self : t) (e : Entity num) : t :=
  match e with
  | ENode n => node self n
  | EWay w => way self w
  | ERelation r => relation self r
  end.

Definition apply_file (self : t) (input : list (Entity num)) : t :=
  fold_left handle input self.
End Handler.
End SushiExtractor.

(* ===================================================================== *)
(** ** Deduplication *)
(* ===================================================================== *)

Section Dedup.
Context {num : Type} {PK : PyKey num}.

Definition Key : Type := num * num * pystr.

Definition feature_key (feature : Feature num) : Key :=
  let coords := coordinates feature in
  (py_round (fst coords) 5, py_round (snd coords) 5, name (properties feature)).

(** [==] on two keys: component by component. *)
Definition key_eq (a b : Key) : bool :=
  py_eq (fst (fst a)) (fst (fst b)) &&
  py_eq (snd (fst a)) (snd (fst b)) &&
  bool_decide (snd a = snd b).

(** [key in seen]: some stored key equals [key].  (Equal keys hash
    alike, so the hash table finds exactly these.) *)
Definition key_in (key : Key) (seen : list Key) : bool :=
  existsb (fun stored => key_eq stored key) seen.

Definition dedup_step (st : list Key * list (Feature num)) (feature : Feature num)
  : list Key * list (Feature num) :=
  let '(seen, unique_features) := st in
  let key := feature_key feature in
  if negb (key_in key seen)
  then (key :: seen, unique_features ++ [feature])
  else (seen, unique_features).

Definition deduplicate_features (features : list (Feature num)) : list (Feature num) :=
  snd (fold_left dedup_step features ([], [])).
End Dedup.

(* ===================================================================== *)
(** ** The two passes and the optional deduplication ([main]) *)
(* ===================================================================== *)

Section Main.
Context {UD : UnicodeData} {num : Type} {PA : PyArith num} {PK : PyKey num}.

Definition main_features (input : list (Entity num)) (pref : option pystr)
           (no_dedup : bool) : list (Feature num) :=
  let node_coords := NodeCollector.apply_file input in
  let extractor :=
    SushiExtractor.apply_file (SushiExtractor.init node_coords pref) input in
  let features := SushiExtractor.features extractor in
  if negb no_dedup then deduplicate_features features else features.
End Main.

(* ===================================================================== *)
(** ** Concrete arithmetic *)
(* ===================================================================== *)

(** IEEE binary64: [sum] adds from left to right starting at 0, [/]
    divides by the length converted to a float.  (Recent CPython adds a
    compensation term to the running sum; the two agree whenever the
    partial sums are exact, as in the examples below.) *)
Definition float_arith : PyArith float :=
  {| py_sum := fun l => fold_left PrimFloat.add l 0%float;
     py_truediv := fun x n => PrimFloat.div x (PrimFloat.of_uint63 (Uint63.of_Z (Z.of_nat n))) |}.

(** Python integers as coordinates: [round(n, 5)] is [n], [==] is
    equality of integers. *)
Definition int_key : PyKey Z :=
  {| py_round := fun x _ => x; py_eq := Z.eqb |}.

(** The multiple of [m] nearest to [x], a tie going to the even multiple. *)
Definition round_half_even (x m : Z) : Z :=
  let q := (x / m)%Z in
  let r := (x mod m)%Z in
  if (2 * r <? m)%Z then (q * m)%Z
  else if (m <? 2 * r)%Z then ((q + 1) * m)%Z
  else if Z.even q then (q * m)%Z
  else ((q + 1) * m)%Z.

(** Python decimals with six fractional digits ([decimal.Decimal]), each
    written as its number of millionths: [round(x, n)] rounds half to even
    at [n] digits, [==] compares values. *)
Definition decimal_key : PyKey Z :=
  {| py_round := fun x ndigits =>
       if (6 <=? ndigits)%Z then x else round_half_even x (10 ^ (6 - ndigits));
     py_eq := Z.eqb |}.

(* ===================================================================== *)
(** ** Vocabulary of the specification *)
(* ===================================================================== *)

(** The keywords written in kana or kanji. *)
Definition script_keywords : list pystr :=
  [u "寿司"; u "すし"; u "スシ"; u "鮨"].

(** [s] contains [kw] up to the case of ASCII letters: some run of [s]
    lower-cases, letter by letter, to [kw]. *)
Definition contains_ignoring_ascii_case (kw s : pystr) : Prop :=
  ∃ t, map ascii_lower t = kw ∧ substring t s.

Section ClassifierSpec.
Context {UD : UnicodeData}.

(** "the cuisine value, case-insensitively, contains the substring sushi" *)
Definition cuisine_has_sushi (tags : Tags) : Prop :=
  substring (u "sushi") (lower (tag tags "cuisine")).

(** "the name tag, lower-cased, contains any of the keywords" *)
Definition name_has_sushi_keyword (tags : Tags) : Prop :=
  ∃ kw, kw ∈ sushi_keywords ∧ substring kw (lower (tag tags "name")).
End ClassifierSpec.

(** The three address tags the locality filter reads, in the order the
    code reads them. *)
Definition address_fields : list string :=
  ["addr:prefecture"; "addr:full"; "addr:city"].

Section LocalitySpec.
Context {UD : UnicodeData}.

(** The variants accepted for a configured token: the table entry found
    under the lower-cased token, else the token itself. *)
Definition accepted_variants (pf : pystr) : list pystr :=
  default [pf] (PREFECTURE_MAP !! lower pf).
End LocalitySpec.

(** The locality rule as the specification words it: the token itself is
    looked up in the table, and an unknown token is its own sole variant. *)
Definition spec_accepted_variants (pf : pystr) : list pystr :=
  default [pf] (PREFECTURE_MAP !! pf).

Definition matches_locality_spec (tags : Tags) (filter : option pystr) : bool :=
  match filter with
  | None => true
  | Some pf =>
    existsb (fun field =>
               existsb (fun v => contains v (tag tags field))
                       (spec_accepted_variants pf))
            address_fields
  end.

(** The candidate tags of the reading name, in priority order. *)
Definition reading_tags : list string :=
  ["name:ja-Hira"; "name:ja_kana"; "name:ja_rm"; "name:ja"].

Section DedupSpec.
Context {num : Type} {PK : PyKey num}.

(** Two features are duplicates when their keys are equal. *)
Definition same_key (f g : Feature num) : bool :=
  key_eq (feature_key f) (feature_key g).

(** The loop of [deduplicate_features] from a given [seen]: what it
    appends to [unique_features]. *)
Fixpoint dedup_from (seen : list Key) (features : list (Feature num))
  : list (Feature num) :=
  match features with
  | [] => []
  | feature :: rest =>
    if negb (key_in (feature_key feature) seen)
    then feature :: dedup_from (feature_key feature :: seen) rest
    else dedup_from seen rest
  end.

(** "Two Features are duplicates iff this composite key matches": the
    longitudes rounded to 5 decimal places are equal, the latitudes
    rounded to 5 decimal places are equal, and the names are the same
    string. *)
Definition duplicates (f g : Feature num) : bool :=
  py_eq (py_round (fst (coordinates f)) 5) (py_round (fst (coordinates g)) 5)
  && py_eq (py_round (snd (coordinates f)) 5) (py_round (snd (coordinates g)) 5)
  && bool_decide (name (properties f) = name (properties g)).

(** The first occurrences of a list: a feature stays when no feature
    before it in the input, kept or not, is a duplicate of it. *)
Fixpoint first_occurrences_from (earlier features : list (Feature num))
  : list (Feature num) :=
  match features with
  | [] => []
  | feature :: rest =>
    if existsb (fun g => duplicates g feature) earlier
    then first_occurrences_from (earlier ++ [feature]) rest
    else feature :: first_occurrences_from (earlier ++ [feature]) rest
  end.

Definition first_occurrences (features : list (Feature num)) : list (Feature num) :=
  first_occurrences_from [] features.

(** [==] on coordinates is transitive (as it is on floats and integers). *)
Definition py_eq_transitive : Prop :=
  ∀ a b c : num, py_eq a b = true → py_eq b c = true → py_eq a c = true.
End DedupSpec.

Section GeometrySpec.
Context {num : Type} {PA : PyArith num}.

Definition entity_tags (e : Entity num) : Tags :=
  match e with
  | ENode n => n_tags n
  | EWay w => w_tags w
  | ERelation r => r_tags r
  end.

(** A way or a relation. *)
Definition is_composite (e : Entity num) : bool :=
  match e with
  | ENode _ => false
  | _ => true
  end.

(** The point references of a composite: every node of a way, the
    ['n'] members of a relation. *)
Definition point_refs (e : Entity num) : list Z :=
  match e with
  | ENode _ => []
  | EWay w => w_nodes w
  | ERelation r => map m_ref (filter (fun m => m_type m = type_n) (r_members r))
  end.

(** The coordinates of the members that the index resolves, in order. *)
Definition resolved_members (index : gmap Z (num * num)) (e : Entity num)
  : list (num * num) :=
  omap (fun ref => index !! ref) (point_refs e).

(** Mean of the longitudes and mean of the latitudes. *)
Definition mean (coords : list (num * num)) : num * num :=
  (py_truediv (py_sum (map fst coords)) (length coords),
   py_truediv (py_sum (map snd coords)) (length coords)).

(** The geometry of an entity, when it has one: the valid location of a
    point, the mean of the resolved members of a composite. *)
Definition geometry (index : gmap Z (num * num)) (e : Entity num)
  : option (num * num) :=
  match e with
  | ENode n => n_location n
  | _ =>
    match resolved_members index e with
    | [] => None
    | coords => Some (mean coords)
    end
  end.

(** A point has a valid location; a composite has a point reference that
    the index knows. *)
Definition resolvable (index : gmap Z (num * num)) (e : Entity num) : Prop :=
  match e with
  | ENode n => is_Some (n_location n)
  | _ => ∃ ref, ref ∈ point_refs e ∧ is_Some (index !! ref)
  end.
End GeometrySpec.

Section GateSpec.
Context {UD : UnicodeData} {num : Type} {PA : PyArith num}.

(** The gates behind a feature [f] built from [e]: classifier, locality
    filter, and a geometry that resolved to the coordinates of [f]. *)
Definition passed_gates (self : SushiExtractor.t) (e : Entity num)
           (f : Feature num) : Prop :=
  is_sushi_shop (entity_tags e) = true
  ∧ matches_prefecture (entity_tags e) (SushiExtractor.pref_filter self) = true
  ∧ resolvable (SushiExtractor.node_coords self) e
  ∧ geometry (SushiExtractor.node_coords self) e = Some (coordinates f).
End GateSpec.

Section PassSpec.
Context {UD : UnicodeData} {num : Type} {PA : PyArith num}.

(** The kind word of an identifier and the raw id of an entity. *)
Definition entity_kind (e : Entity num) : string :=
  match e with
  | ENode _ => "node"
  | EWay _ => "way"
  | ERelation _ => "relation"
  end.

Definition entity_id (e : Entity num) : Z :=
  match e with
  | ENode n => n_id n
  | EWay w => w_id w
  | ERelation r => r_id r
  end.

(** The feature one entity contributes to the pass, if any: a function of
    the entity, the index and the filter alone. *)
Definition entity_feature (index : gmap Z (num * num)) (pref : option pystr)
           (e : Entity num) : option (Feature num) :=
  if is_sushi_shop (entity_tags e) && matches_prefecture (entity_tags e) pref
  then
    match geometry index e with
    | Some point =>
      Some {| coordinates := point;
              properties :=
                extract_properties (qualified_id (entity_kind e) (entity_id e))
                                   (entity_tags e) |}
    | None => None
    end
  else None.
End PassSpec.

(** A literal whose characters are all ASCII. *)
Definition ascii_string (s : string) : Prop :=
  Forall (fun b => b < 0x80) (map N_of_ascii (list_ascii_of_string s)).

(* ===================================================================== *)
(** ** [scripts/filter_tokyo.py]: the bounding-box filter *)
(* ===================================================================== *)

Module FilterTokyo.

Record Bounds := {
  north : float;
  south : float;
  east : float;
  west : float
}.

#[warnings="-inexact-float"]
Definition TOKYO_BOUNDS : Bounds :=
  {| north := 35.82; south := 35.53; east := 139.91; west := 139.50 |}.

(** [west <= lon <= east and south <= lat <= north] *)
Definition in_bounds (feature : Feature float) : bool :=
  let coords := coordinates feature in
  let lon := fst coords in
  let lat := snd coords in
  PrimFloat.leb (west TOKYO_BOUNDS) lon && PrimFloat.leb lon (east TOKYO_BOUNDS)
  && (PrimFloat.leb (south TOKYO_BOUNDS) lat && PrimFloat.leb lat (north TOKYO_BOUNDS)).

Definition step (tokyo_features : list (Feature float)) (feature : Feature float)
  : list (Feature float) :=
  if in_bounds feature then tokyo_features ++ [feature] else tokyo_features.

(** The loop of [main] over [data["features"]]. *)
Definition tokyo_features (features : list (Feature float)) : list (Feature float) :=
  fold_left step features [].

End FilterTokyo.

(** The box as its four numbers: longitude from 139.50 to 139.91 and
    latitude from 35.53 to 35.82, every bound included. *)
#[warnings="-inexact-float"]
Definition inside_tokyo_box (lon lat : float) : Prop :=
  PrimFloat.leb 139.50 lon = true ∧ PrimFloat.leb lon 139.91 = true
  ∧ PrimFloat.leb 35.53 lat = true ∧ PrimFloat.leb lat 35.82 = true.

(** The features of a list that satisfy [keep], each as often as it
    occurs and in the order of the list. *)
Fixpoint kept_features (keep : Feature float → bool)
         (features : list (Feature float)) : list (Feature float) :=
  match features with
  | [] => []
  | feature :: rest =>
    if keep feature then feature :: kept_features keep rest
    else kept_features keep rest
  end.

Example u_kanji : u "寿司" = [0x5BFF; 0x53F8].
Proof. reflexivity. Qed.

Example u_kana : u "すし" = [0x3059; 0x3057] ∧ u "スシ" = [0x30B9; 0x30B7] ∧ u "鮨" = [0x9BA8].
Proof. repeat split. Qed.

Example u_ascii : u "sushi" = [0x73; 0x75; 0x73; 0x68; 0x69].
Proof. reflexivity. Qed.

(* ===================================================================== *)
(** ** Substring search and lower-casing: basic facts *)
(* ===================================================================== *)

Lemma startswith_spec (p s : pystr) :
  startswith p s = true ↔ ∃ post, s = p ++ post.
Proof.
  revert s; induction p as [|c p IH]; intros s; simpl.
  - split; [intros _; by exists s | done].
  - destruct s as [|d s].
    + split; [done | intros [post H]; discriminate].
    + rewrite andb_true_iff, N.eqb_eq, IH. split.
      * intros [-> [post ->]]. by exists post.
      * intros [post H]. injection H as -> ->. eauto.
Qed.

Lemma contains_spec (p s : pystr) :
  contains p s = true ↔ substring p s.
Proof.
  unfold substring. induction s as [|d s IH]; simpl.
  - rewrite orb_false_r, startswith_spec. split.
    + intros [post H]. by exists [], post.
    + intros [pre [post H]]. symmetry in H.
      apply app_eq_nil in H as [-> H]. apply app_eq_nil in H as [-> ->].
      by exists [].
  - rewrite orb_true_iff, startswith_spec, IH. split.
    + intros [[post H] | [pre [post H]]].
      * by exists [], post.
      * exists (d :: pre), post. by rewrite H.
    + intros [[|e pre] [post H]].
      * left. by exists post.
      * right. injection H as -> ->. by exists pre, post.
Qed.

Lemma contains_nil_r (p : pystr) : contains p [] = true → p = [].
Proof. destruct p; [done | simpl; discriminate]. Qed.

Lemma ascii_lower_below (c : N) : ascii_lower c < 0x80 → c < 0x80.
Proof.
  unfold ascii_lower.
  destruct (0x41 <=? c); destruct (c <=? 0x5A); simpl; lia.
Qed.

Section LowerFacts.
Context {UD : UnicodeData}.

Lemma concat_imap_singletons (g : nat → N → list N) (h : N → N) (l : pystr) :
  (∀ i c, l !! i = Some c → g i c = [h c]) →
  concat (imap g l) = map h l.
Proof.
  revert g; induction l as [|c l IH]; intros g Hg; [done|].
  simpl. rewrite (Hg 0%nat c eq_refl). simpl. f_equal.
  apply IH. intros i d Hd. by apply (Hg (S i)).
Qed.

(** A run of code points that the table maps one to one survives
    lower-casing, whatever surrounds it. *)
Lemma lower_substring_map (h : N → N) (mid s : pystr) :
  substring mid s →
  Forall (fun c => c ≠ 0x3A3 ∧ to_lower_full c = [h c]) mid →
  substring (map h mid) (lower s).
Proof.
  intros [pre [post Hs]] Hmid. unfold lower.
  rewrite Hs at 2. rewrite !imap_app, !concat_app.
  eexists _, _. f_equal. f_equal.
  apply concat_imap_singletons. intros i c Hc.
  rewrite Forall_lookup in Hmid. destruct (Hmid i c Hc) as [Hne Hlow].
  unfold lower_ucs4. apply N.eqb_neq in Hne. by rewrite Hne.
Qed.

Lemma lower_ascii (s : pystr) :
  ascii_case_law → Forall (fun c => c < 0x80) s →
  lower s = map ascii_lower s.
Proof.
  intros Hlaw Hs. unfold lower. apply concat_imap_singletons.
  intros i c Hc. rewrite Forall_lookup in Hs. pose proof (Hs i c Hc) as Hlt.
  unfold lower_ucs4. destruct (c =? 0x3A3) eqn:E.
  - apply N.eqb_eq in E. lia.
  - by apply Hlaw.
Qed.

Lemma lower_nil : lower [] = [].
Proof. reflexivity. Qed.
End LowerFacts.

(* ===================================================================== *)
(** ** The classifier *)
(* ===================================================================== *)

Lemma ascii_unicode_data_ascii_law : @ascii_case_law ascii_unicode_data.
Proof. intros c _. reflexivity. Qed.

Lemma ascii_unicode_data_caseless (cs : list N) :
  forallb (fun c => negb ((0x41 <=? c) && (c <=? 0x5A))) cs = true →
  @caseless ascii_unicode_data cs.
Proof.
  intros H. apply Forall_forall. intros c Hc.
  rewrite forallb_forall in H. apply list_elem_of_In, H in Hc.
  simpl. unfold ascii_lower. by destruct ((0x41 <=? c) && (c <=? 0x5A)).
Qed.

Section ClassifierFacts.
Context {UD : UnicodeData}.

Lemma has_sushi_name_spec (tags : Tags) :
  existsb (fun kw => contains kw (lower (tag tags "name"))) sushi_keywords = true
  ↔ name_has_sushi_keyword tags.
Proof.
  unfold name_has_sushi_keyword. rewrite existsb_exists.
  split; intros [kw [Hin Hc]]; exists kw.
  - by rewrite list_elem_of_In, <- contains_spec.
  - by rewrite <- list_elem_of_In, contains_spec.
Qed.

Lemma is_sushi_shop_conditions (tags : Tags) :
  is_sushi_shop tags = true ↔
      (tag tags "amenity" = u "restaurant" ∧ cuisine_has_sushi tags)
    ∨ (tag tags "amenity" = u "restaurant" ∧ name_has_sushi_keyword tags)
    ∨ (tag tags "shop" = u "seafood" ∧ name_has_sushi_keyword tags)
    ∨ (tag tags "amenity" = u "fast_food" ∧ cuisine_has_sushi tags).
Proof.
  unfold is_sushi_shop, cuisine_has_sushi. cbv zeta.
  rewrite <- has_sushi_name_spec, <- contains_spec.
  destruct (contains (u "sushi") (lower (tag tags "cuisine")));
    destruct (existsb _ sushi_keywords);
    repeat case_bool_decide; cbn [andb]; intuition congruence.
Qed.

Lemma script_keyword_is_sushi_keyword (kw : pystr) :
  kw ∈ script_keywords → kw ∈ sushi_keywords.
Proof.
  unfold script_keywords, sushi_keywords. rewrite !elem_of_cons. tauto.
Qed.

Lemma script_keyword_chars (kw : pystr) :
  caseless (concat script_keywords) → kw ∈ script_keywords →
  Forall (fun c => c ≠ 0x3A3 ∧ to_lower_full c = [id c]) kw.
Proof.
  intros Hcl Hkw. apply Forall_forall. intros c Hc.
  assert (c ∈ concat script_keywords) as Hin.
  { apply list_elem_of_In, in_concat. exists kw.
    by rewrite <- !list_elem_of_In. }
  split.
  - assert (Forall (fun c => c ≠ 0x3A3) (concat script_keywords)) as Hne
      by (vm_compute; repeat constructor; discriminate).
    rewrite Forall_forall in Hne. by apply Hne.
  - unfold caseless in Hcl. rewrite Forall_forall in Hcl. by apply Hcl.
Qed.

Lemma script_keyword_survives_lower (kw s : pystr) :
  caseless (concat script_keywords) → kw ∈ script_keywords →
  substring kw s → substring kw (lower s).
Proof.
  intros Hcl Hkw Hsub.
  pose proof (lower_substring_map id kw s Hsub (script_keyword_chars kw Hcl Hkw)) as H.
  by rewrite map_id in H.
Qed.

Lemma latin_keyword_survives_lower (kw s : pystr) :
  ascii_case_law → Forall (fun c => c < 0x80) kw →
  contains_ignoring_ascii_case kw s → substring kw (lower s).
Proof.
  intros Hlaw Hkw [t [Ht Hsub]]. rewrite <- Ht.
  apply lower_substring_map; [done|].
  rewrite <- Ht, Forall_map in Hkw.
  eapply Forall_impl; [exact Hkw|]. intros c Hc. simpl in Hc.
  apply ascii_lower_below in Hc. split; [lia | by apply Hlaw].
Qed.

(** C1.  [is_sushi_shop] holds exactly when one of the four conditions
    does: restaurant with a sushi cuisine, restaurant with a sushi name,
    seafood shop with a sushi name, fast food with a sushi cuisine.  The
    empty tag mapping and the mapping with only [amenity=restaurant] are
    rejected. *)
Theorem is_sushi_shop_iff_any_condition :
  (∀ tags : Tags,
      is_sushi_shop tags = true ↔
          (tag tags "amenity" = u "restaurant" ∧ cuisine_has_sushi tags)
        ∨ (tag tags "amenity" = u "restaurant" ∧ name_has_sushi_keyword tags)
        ∨ (tag tags "shop" = u "seafood" ∧ name_has_sushi_keyword tags)
        ∨ (tag tags "amenity" = u "fast_food" ∧ cuisine_has_sushi tags))
  ∧ is_sushi_shop ∅ = false
  ∧ is_sushi_shop {[ u "amenity" := u "restaurant" ]} = false.
Proof.
  split; [exact is_sushi_shop_conditions|].
  split; vm_compute; reflexivity.
Qed.

(** C4.  For a restaurant, a name that contains one of the kana or kanji
    keywords as written, or the Latin keyword "sushi" in any mix of upper
    and lower case, is enough for [is_sushi_shop]. *)
Theorem restaurant_sushi_name_accepted (tags : Tags) :
  ascii_case_law → caseless (concat script_keywords) →
  tag tags "amenity" = u "restaurant" →
  (∃ kw, kw ∈ script_keywords ∧ substring kw (tag tags "name"))
  ∨ contains_ignoring_ascii_case (u "sushi") (tag tags "name") →
  is_sushi_shop tags = true.
Proof.
  intros Hlaw Hcl Ham Hname. apply is_sushi_shop_conditions.
  right; left. split; [done|].
  destruct Hname as [[kw [Hkw Hsub]] | Hci].
  - exists kw. split.
    + by apply script_keyword_is_sushi_keyword.
    + by apply script_keyword_survives_lower.
  - exists (u "sushi"). split.
    + unfold sushi_keywords. rewrite !elem_of_cons. tauto.
    + apply latin_keyword_survives_lower; [done | | done].
      vm_compute. repeat constructor.
Qed.
End ClassifierFacts.

Lemma restaurant_sushi_name_accepted_witness :
  @is_sushi_shop ascii_unicode_data
     {[ u "amenity" := u "restaurant"; u "name" := u "SUSHI Bar" ]} = true
  ∧ @is_sushi_shop ascii_unicode_data
     {[ u "amenity" := u "restaurant"; u "name" := u "黒潮鮨" ]} = true.
Proof.
  split.
  - apply (@restaurant_sushi_name_accepted ascii_unicode_data).
    + exact ascii_unicode_data_ascii_law.
    + apply ascii_unicode_data_caseless. reflexivity.
    + reflexivity.
    + right. exists (u "SUSHI"). split; [reflexivity|].
      exists [], (u " Bar"). reflexivity.
  - apply (@restaurant_sushi_name_accepted ascii_unicode_data).
    + exact ascii_unicode_data_ascii_law.
    + apply ascii_unicode_data_caseless. reflexivity.
    + reflexivity.
    + left. exists (u "鮨"). split; [|by exists (u "黒潮"), []].
      unfold script_keywords. rewrite !elem_of_cons. tauto.
Defined.


(* ===================================================================== *)
(** ** The locality filter *)
(* ===================================================================== *)

(** Every key of the prefecture table is written in lower-case ASCII. *)
Lemma prefecture_keys_lowercase (k : pystr) (names : list pystr) :
  PREFECTURE_MAP !! k = Some names →
  Forall (fun c => c < 0x80) k ∧ map ascii_lower k = k.
Proof.
  intros H. apply elem_of_list_to_map_2, list_elem_of_In in H.
  set (ok := fun kv : pystr * list pystr =>
               forallb (fun c => c <? 0x80) (fst kv)
               && bool_decide (map ascii_lower (fst kv) = fst kv)).
  assert (ok (k, names) = true) as Hok.
  { revert H. generalize (k, names). apply forallb_forall.
    vm_compute. reflexivity. }
  unfold ok in Hok. simpl in Hok. apply andb_true_iff in Hok as [H1 H2].
  split.
  - apply Forall_forall. intros c Hc. rewrite forallb_forall in H1.
    apply N.ltb_lt, H1. by apply list_elem_of_In.
  - by apply bool_decide_eq_true in H2.
Qed.

Section LocalityFacts.
Context {UD : UnicodeData}.

Lemma matches_prefecture_variants (tags : Tags) (pf : pystr) :
  matches_prefecture tags (Some pf) =
  existsb (fun field =>
             existsb (fun v => contains v (tag tags field)) (accepted_variants pf))
          address_fields.
Proof.
  unfold matches_prefecture, accepted_variants, address_fields. cbv zeta.
  cbn [existsb].
  destruct (existsb _ _); [done|].
  destruct (existsb _ _); [done|].
  by destruct (existsb _ _).
Qed.

Lemma matches_prefecture_iff (tags : Tags) (pf : pystr) :
  matches_prefecture tags (Some pf) = true ↔
  ∃ field v, field ∈ address_fields ∧ v ∈ accepted_variants pf
             ∧ substring v (tag tags field).
Proof.
  rewrite matches_prefecture_variants, existsb_exists. split.
  - intros [field [Hf Hv]]. apply existsb_exists in Hv as [v [Hv Hc]].
    exists field, v. split; [apply list_elem_of_In; exact Hf|].
    split; [apply list_elem_of_In; exact Hv|].
    apply contains_spec; exact Hc.
  - intros [field [v [Hf [Hv Hc]]]]. exists field.
    split; [apply list_elem_of_In; exact Hf|].
    apply existsb_exists. exists v.
    split; [apply list_elem_of_In; exact Hv|].
    apply contains_spec; exact Hc.
Qed.

Lemma lower_prefecture_key (k : pystr) (names : list pystr) :
  ascii_case_law → PREFECTURE_MAP !! k = Some names → lower k = k.
Proof.
  intros Hlaw Hk. destruct (prefecture_keys_lowercase k names Hk) as [Hascii Hlow].
  by rewrite lower_ascii.
Qed.

(** C5, amended.  Without a filter token every entity matches.  With a
    token, the accepted variants are the table entry of the lower-cased
    token, or the token itself when its lower-cased form is not a key;
    the entity matches exactly when one of addr:prefecture, addr:full,
    addr:city contains one accepted variant as a substring.  For the
    unknown token "foo" this means that an address tag contains "foo". *)
Theorem matches_prefecture_lowered_lookup (tags : Tags) :
  ascii_case_law →
  matches_prefecture tags None = true
  ∧ (∀ pf names, PREFECTURE_MAP !! lower pf = Some names →
       (matches_prefecture tags (Some pf) = true ↔
        ∃ field v, field ∈ address_fields ∧ v ∈ names
                   ∧ substring v (tag tags field)))
  ∧ (∀ pf, PREFECTURE_MAP !! lower pf = None →
       (matches_prefecture tags (Some pf) = true ↔
        ∃ field, field ∈ address_fields ∧ substring pf (tag tags field)))
  ∧ (matches_prefecture tags (Some (u "foo")) = true ↔
     ∃ field, field ∈ address_fields ∧ substring (u "foo") (tag tags field)).
Proof.
  intros Hlaw.
  assert (∀ pf, PREFECTURE_MAP !! lower pf = None →
       (matches_prefecture tags (Some pf) = true ↔
        ∃ field, field ∈ address_fields ∧ substring pf (tag tags field))) as Hnone.
  { intros pf Hpf. rewrite matches_prefecture_iff.
    unfold accepted_variants. rewrite Hpf. simpl. split.
    - intros [field [v [Hf [Hv Hs]]]]. apply list_elem_of_singleton in Hv as ->.
      eauto.
    - intros [field [Hf Hs]]. exists field, pf.
      split; [done|]. split; [apply list_elem_of_singleton|]; done. }
  split; [done|]. split; [|split; [exact Hnone|]].
  - intros pf names Hpf. rewrite matches_prefecture_iff.
    unfold accepted_variants. rewrite Hpf. done.
  - apply Hnone. rewrite lower_ascii; [|done|vm_compute; repeat constructor].
    vm_compute. reflexivity.
Qed.

(** C10.  The token is lower-cased before the table lookup: a token whose
    lower-cased form is a key of the table ("Tokyo", "TOKYO", "tokyo")
    filters exactly as its lower-cased form does; a token whose
    lower-cased form is not a key is matched in its original case. *)
Theorem pref_filter_lowered_before_lookup (tags : Tags) (pf : pystr) :
  ascii_case_law →
  (is_Some (PREFECTURE_MAP !! lower pf) →
     matches_prefecture tags (Some pf) = matches_prefecture tags (Some (lower pf)))
  ∧ (PREFECTURE_MAP !! lower pf = None →
     matches_prefecture tags (Some pf) =
     existsb (fun field => contains pf (tag tags field)) address_fields)
  ∧ (lower (u "Tokyo") = u "tokyo" ∧ lower (u "TOKYO") = u "tokyo"
     ∧ lower (u "tokyo") = u "tokyo"
     ∧ PREFECTURE_MAP !! u "tokyo" = Some [u "東京都"; u "東京"; u "Tokyo"]).
Proof.
  intros Hlaw. split; [|split].
  - intros [names Hpf]. rewrite !matches_prefecture_variants.
    unfold accepted_variants.
    rewrite (lower_prefecture_key (lower pf) names Hlaw Hpf), Hpf.
    reflexivity.
  - intros Hpf. rewrite matches_prefecture_variants.
    unfold accepted_variants. rewrite Hpf. simpl.
    unfold address_fields. cbn [existsb]. by rewrite !orb_false_r.
  - repeat split;
      try (rewrite lower_ascii; [|done|vm_compute; repeat constructor]);
      vm_compute; reflexivity.
Qed.
End LocalityFacts.

(** C5, as worded: a token that is not itself a key of the table would be
    its own sole variant.  The code accepts the table's variants for
    "Tokyo", whose lower-cased form is the key. *)
Lemma matches_prefecture_raw_lookup_counterexample :
  @matches_prefecture ascii_unicode_data
     {[ u "addr:prefecture" := u "東京都" ]} (Some (u "Tokyo")) = true
  ∧ matches_locality_spec
     {[ u "addr:prefecture" := u "東京都" ]} (Some (u "Tokyo")) = false.
Proof. split; vm_compute; reflexivity. Qed.

Lemma matches_prefecture_lowered_lookup_witness :
  @matches_prefecture ascii_unicode_data
     {[ u "addr:city" := u "foo town" ]} (Some (u "foo")) = true.
Proof.
  apply (@matches_prefecture_lowered_lookup ascii_unicode_data
           {[ u "addr:city" := u "foo town" ]} ascii_unicode_data_ascii_law).
  exists "addr:city"%string. split.
  - unfold address_fields. rewrite !elem_of_cons. tauto.
  - by exists [], (u " town").
Defined.

Lemma pref_filter_lowered_before_lookup_witness :
  @matches_prefecture ascii_unicode_data
     {[ u "addr:full" := u "東京都渋谷区" ]} (Some (u "TOKYO"))
  = @matches_prefecture ascii_unicode_data
     {[ u "addr:full" := u "東京都渋谷区" ]} (Some (@lower ascii_unicode_data (u "TOKYO"))).
Proof.
  apply (@pref_filter_lowered_before_lookup ascii_unicode_data
           {[ u "addr:full" := u "東京都渋谷区" ]} (u "TOKYO")
           ascii_unicode_data_ascii_law).
  vm_compute. eauto.
Defined.


(* ===================================================================== *)
(** ** The reading name *)
(* ===================================================================== *)

Lemma py_or_empty (x : option pystr) (y : pystr) :
  default [] x = [] → py_or x y = y.
Proof. destruct x as [[|c s]|]; simpl; congruence. Qed.

Lemma py_or_nonempty (v y : pystr) : v ≠ [] → py_or (Some v) y = v.
Proof. destruct v; simpl; congruence. Qed.

(** C8.  The reading name is the first non-empty value among name:ja-Hira,
    name:ja_kana, name:ja_rm and name:ja, tried in this order, and the
    empty string when none has one.  In particular a kana reading is
    preferred to a romanized one whatever the latter holds. *)
Theorem name_reading_first_nonempty (id : pystr) (tags : Tags) :
  (∀ i k v, reading_tags !! i = Some k →
       tags !! u k = Some v → v ≠ [] →
       (∀ j k', (j < i)%nat → reading_tags !! j = Some k' → tag tags k' = []) →
       name_reading (extract_properties id tags) = v)
  ∧ ((∀ k, k ∈ reading_tags → tag tags k = []) →
       name_reading (extract_properties id tags) = [])
  ∧ (∀ kana rm, tags !! u "name:ja_kana" = Some kana → kana ≠ [] →
       tags !! u "name:ja_rm" = Some rm →
       tag tags "name:ja-Hira" = [] →
       name_reading (extract_properties id tags) = kana).
Proof.
  assert (∀ i k v, reading_tags !! i = Some k →
       tags !! u k = Some v → v ≠ [] →
       (∀ j k', (j < i)%nat → reading_tags !! j = Some k' → tag tags k' = []) →
       name_reading (extract_properties id tags) = v) as Hfirst.
  { intros i k v Hk Hv Hne Hbefore. cbn [extract_properties name_reading].
    destruct i as [|[|[|[|i]]]]; simpl in Hk; try discriminate;
      injection Hk as <-.
    - rewrite Hv. by apply py_or_nonempty.
    - rewrite (py_or_empty (tags !! u "name:ja-Hira"))
        by (apply (Hbefore 0%nat); [lia | reflexivity]).
      rewrite Hv. by apply py_or_nonempty.
    - rewrite (py_or_empty (tags !! u "name:ja-Hira"))
        by (apply (Hbefore 0%nat); [lia | reflexivity]).
      rewrite (py_or_empty (tags !! u "name:ja_kana"))
        by (apply (Hbefore 1%nat); [lia | reflexivity]).
      rewrite Hv. by apply py_or_nonempty.
    - rewrite (py_or_empty (tags !! u "name:ja-Hira"))
        by (apply (Hbefore 0%nat); [lia | reflexivity]).
      rewrite (py_or_empty (tags !! u "name:ja_kana"))
        by (apply (Hbefore 1%nat); [lia | reflexivity]).
      rewrite (py_or_empty (tags !! u "name:ja_rm"))
        by (apply (Hbefore 2%nat); [lia | reflexivity]).
      rewrite Hv. by apply py_or_nonempty. }
  split; [exact Hfirst|]. split.
  - intros Hnone. cbn [extract_properties name_reading].
    rewrite !py_or_empty; [reflexivity | ..];
      apply Hnone; unfold reading_tags; rewrite !elem_of_cons; tauto.
  - intros kana rm Hkana Hne _ Hhira.
    apply (Hfirst 1%nat "name:ja_kana"%string kana); [reflexivity | done | done |].
    intros j k' Hj Hk'. destruct j; [|lia].
    simpl in Hk'. by injection Hk' as <-.
Qed.

(* ===================================================================== *)
(** ** Deduplication *)
(* ===================================================================== *)

Section DedupFacts.
Context {num : Type} {PK : PyKey num}.

Lemma dedup_fold (features : list (Feature num)) (seen : list Key)
      (unique_features : list (Feature num)) :
  snd (fold_left dedup_step features (seen, unique_features))
  = unique_features ++ dedup_from seen features.
Proof.
  revert seen unique_features.
  induction features as [|f fs IH]; intros seen acc; simpl.
  - by rewrite app_nil_r.
  - destruct (negb (key_in (feature_key f) seen)); rewrite IH.
    + by rewrite <- app_assoc.
    + reflexivity.
Qed.

Lemma deduplicate_features_unfold (features : list (Feature num)) :
  deduplicate_features features = dedup_from [] features.
Proof. unfold deduplicate_features. by rewrite dedup_fold. Qed.

Lemma dedup_from_idempotent (seen : list Key) (features : list (Feature num)) :
  dedup_from seen (dedup_from seen features) = dedup_from seen features.
Proof.
  revert seen. induction features as [|f fs IH]; intros seen; [done|].
  simpl. destruct (negb (key_in (feature_key f) seen)) eqn:E.
  - simpl. rewrite E. by rewrite IH.
  - apply IH.
Qed.

Lemma dedup_from_sublist (seen : list Key) (features : list (Feature num)) :
  dedup_from seen features `sublist_of` features.
Proof.
  revert seen. induction features as [|f fs IH]; intros seen; simpl.
  - constructor.
  - destruct (negb (key_in (feature_key f) seen)).
    + by apply sublist_skip.
    + by apply sublist_cons.
Qed.

Lemma dedup_from_not_seen (seen : list Key) (features : list (Feature num)) (g : Feature num) :
  g ∈ dedup_from seen features → key_in (feature_key g) seen = false.
Proof.
  revert seen. induction features as [|f fs IH]; intros seen; simpl.
  - by intros ?%elem_of_nil.
  - destruct (key_in (feature_key f) seen) eqn:E; simpl.
    + apply IH.
    + intros [->|Hg]%elem_of_cons; [done|].
      apply IH in Hg. simpl in Hg. by apply orb_false_iff in Hg as [_ ?].
Qed.

Lemma dedup_from_distinct (seen : list Key) (features : list (Feature num))
      (i j : nat) (f g : Feature num) :
  (i < j)%nat →
  dedup_from seen features !! i = Some f →
  dedup_from seen features !! j = Some g →
  same_key f g = false.
Proof.
  revert seen i j. induction features as [|a fs IH]; intros seen i j Hij; simpl.
  - by rewrite lookup_nil.
  - destruct (key_in (feature_key a) seen) eqn:E; simpl.
    + by apply IH.
    + destruct i as [|i], j as [|j]; try lia; simpl.
      * intros [= <-] Hg. apply list_elem_of_lookup_2, dedup_from_not_seen in Hg.
        simpl in Hg. by apply orb_false_iff in Hg as [? _].
      * apply IH. lia.
Qed.

Lemma key_eq_transitive (a b c : Key) :
  py_eq_transitive →
  key_eq a b = true → key_eq b c = true → key_eq a c = true.
Proof.
  intros Htr. unfold key_eq.
  rewrite !andb_true_iff, !bool_decide_eq_true.
  intros [[H1 H2] H3] [[H4 H5] H6]. repeat split.
  - by apply (Htr _ _ _ H1).
  - by apply (Htr _ _ _ H2).
  - congruence.
Qed.

Lemma dedup_from_first_occurrences (seen : list Key)
      (earlier features : list (Feature num)) :
  py_eq_transitive →
  (∀ key, key_in key seen = existsb (fun g => key_eq (feature_key g) key) earlier) →
  dedup_from seen features = first_occurrences_from earlier features.
Proof.
  intros Htr. revert seen earlier.
  induction features as [|f fs IH]; intros seen earlier Hseen; [done|].
  simpl.
  change (existsb (fun g => duplicates g f) earlier)
    with (existsb (fun g => key_eq (feature_key g) (feature_key f)) earlier).
  rewrite <- Hseen.
  destruct (key_in (feature_key f) seen) eqn:E; simpl.
  - apply IH. intros key. rewrite existsb_app, <- Hseen. simpl.
    rewrite orb_false_r.
    destruct (key_eq (feature_key f) key) eqn:Ek; [|by rewrite orb_false_r].
    rewrite orb_true_r. unfold key_in in *.
    apply existsb_exists in E as [stored [Hin Hst]].
    apply existsb_exists. exists stored. split; [done|].
    by apply (key_eq_transitive _ (feature_key f)).
  - f_equal. apply IH. intros key. rewrite existsb_app, <- Hseen. simpl.
    rewrite orb_false_r. apply orb_comm.
Qed.

(** The key the code builds compares as the specification's duplicates:
    longitude rounded to 5 places, latitude rounded to 5 places, name. *)
Lemma same_key_duplicates (f g : Feature num) :
  same_key f g = duplicates f g.
Proof. reflexivity. Qed.

(** C3.  [deduplicate_features] keeps exactly the first occurrence of each
    key (longitude rounded to 5 decimal places, latitude rounded to 5
    decimal places, exact name): its result is the input with every
    feature removed that is a duplicate of an earlier one, in the order of
    the input, and no two kept features are duplicates.  Two features are
    duplicates exactly when these three components are equal. *)
Theorem deduplicate_features_first_occurrences (features : list (Feature num)) :
  py_eq_transitive →
  deduplicate_features features = first_occurrences features
  ∧ deduplicate_features features `sublist_of` features
  ∧ (∀ i j f g, (i < j)%nat →
       deduplicate_features features !! i = Some f →
       deduplicate_features features !! j = Some g →
       duplicates f g = false)
  ∧ (∀ f g, duplicates f g = true ↔
       py_eq (py_round (fst (coordinates f)) 5)
             (py_round (fst (coordinates g)) 5) = true
       ∧ py_eq (py_round (snd (coordinates f)) 5)
               (py_round (snd (coordinates g)) 5) = true
       ∧ name (properties f) = name (properties g)).
Proof.
  intros Htr. rewrite deduplicate_features_unfold. split; [|split; [|split]].
  - by apply dedup_from_first_occurrences.
  - apply dedup_from_sublist.
  - intros i j f g Hij Hf Hg. rewrite <- same_key_duplicates.
    by apply (dedup_from_distinct [] features i j).
  - intros f g. unfold duplicates.
    rewrite !andb_true_iff, bool_decide_eq_true. tauto.
Qed.

(** C7.  Deduplicating a deduplicated list changes nothing. *)
Theorem deduplicate_features_idempotent (features : list (Feature num)) :
  deduplicate_features (deduplicate_features features)
  = deduplicate_features features.
Proof.
  rewrite !deduplicate_features_unfold. apply dedup_from_idempotent.
Qed.

(** C9.  Every feature of the result is a feature of the input, as it
    stands there (coordinates and properties), and in the input's order:
    the rounding enters the key only, whatever [round] does. *)
Theorem deduplicate_features_unmodified (features : list (Feature num)) :
  deduplicate_features features `sublist_of` features
  ∧ (∀ f, f ∈ deduplicate_features features → f ∈ features).
Proof.
  rewrite deduplicate_features_unfold.
  pose proof (dedup_from_sublist [] features) as Hsub.
  split; [done|]. intros f Hf. by eapply elem_of_sublist.
Qed.
End DedupFacts.

Lemma int_key_transitive : @py_eq_transitive Z int_key.
Proof.
  intros a b c H1 H2. simpl in *.
  apply Z.eqb_eq in H1, H2. apply Z.eqb_eq. congruence.
Qed.

Lemma decimal_key_transitive : @py_eq_transitive Z decimal_key.
Proof.
  intros a b c H1 H2. simpl in *.
  apply Z.eqb_eq in H1, H2. apply Z.eqb_eq. congruence.
Qed.

(** C3 at decimal coordinates.  [a] at (139.700001, 35.680001) and [b] at
    (139.700004, 35.680004) differ in the sixth place and round to the
    same key, so [b] is dropped although its coordinates are not those of
    [a]; [c] at (139.700020, 35.680001) rounds to another longitude and
    [d] has another name: both stay. *)
Lemma deduplicate_features_first_occurrences_witness :
  let x := extract_properties (u "node/1") {[ u "name" := u "X" ]} in
  let y := extract_properties (u "node/4") {[ u "name" := u "Y" ]} in
  let a := {| coordinates := (139700001, 35680001)%Z; properties := x |} in
  let b := {| coordinates := (139700004, 35680004)%Z; properties := x |} in
  let c := {| coordinates := (139700020, 35680001)%Z; properties := x |} in
  let d := {| coordinates := (139700001, 35680001)%Z; properties := y |} in
  @deduplicate_features Z decimal_key [a; b; c; d]
    = @first_occurrences Z decimal_key [a; b; c; d]
  ∧ @deduplicate_features Z decimal_key [a; b; c; d] = [a; c; d].
Proof.
  intros x y a b c d. split.
  - apply (@deduplicate_features_first_occurrences Z decimal_key [a; b; c; d]
             decimal_key_transitive).
  - vm_compute. reflexivity.
Defined.

(* ===================================================================== *)
(** ** The extraction pass *)
(* ===================================================================== *)

Section ExtractorFacts.
Context {UD : UnicodeData} {num : Type} {PA : PyArith num}.

Import SushiExtractor.

Lemma relation_coords (index : gmap Z (num * num)) (members : list Member) :
  omap (fun member =>
          if bool_decide (m_type member = type_n)
          then index !! m_ref member else None) members
  = omap (fun ref => index !! ref)
         (map m_ref (filter (fun m => m_type m = type_n) members)).
Proof.
  induction members as [|m ms IH]; [done|].
  rewrite filter_cons. destruct (decide (m_type m = type_n)) as [Hm|Hm].
  - cbn. rewrite bool_decide_eq_true_2 by done.
    destruct (index !! m_ref m); by rewrite <- IH.
  - cbn. rewrite bool_decide_eq_false_2 by done. exact IH.
Qed.

Lemma resolved_nonempty_iff (index : gmap Z (num * num)) (e : Entity num) :
  resolved_members index e ≠ [] ↔
  ∃ ref, ref ∈ point_refs e ∧ is_Some (index !! ref).
Proof.
  unfold resolved_members. induction (point_refs e) as [|r rs IH]; simpl.
  - split; [done|]. by intros [ref [?%elem_of_nil _]].
  - destruct (index !! r) eqn:Hr; simpl.
    + split; [|done]. intros _. exists r. split; [left|]; eauto.
    + rewrite IH. split.
      * intros [ref [Hin Hs]]. exists ref. split; [by right|done].
      * intros [ref [Hin Hs]]. apply elem_of_cons in Hin as [->|Hin].
        -- rewrite Hr in Hs. by destruct Hs.
        -- eauto.
Qed.

Lemma geometry_resolvable (index : gmap Z (num * num)) (e : Entity num) :
  is_Some (geometry index e) ↔ resolvable index e.
Proof.
  destruct e as [n|w|r]; [done| |];
    unfold geometry, resolvable; rewrite <- resolved_nonempty_iff;
    destruct (resolved_members _ _); split; try done; eauto;
    by intros [? ?].
Qed.

Lemma append_neq (self : t) (f : Feature num) : self ≠ append self f.
Proof.
  intros H. apply (f_equal (fun x => length (features x))) in H.
  simpl in H. rewrite length_app in H. simpl in H. lia.
Qed.

Lemma append_inj (self : t) (f g : Feature num) :
  append self f = append self g → f = g.
Proof.
  intros H. apply (f_equal features) in H. simpl in H.
  apply app_inj_tail in H. tauto.
Qed.

(** What one call of a handler does, by the three gates. *)
Lemma handle_cases (self : t) (e : Entity num) :
  (is_sushi_shop (entity_tags e) = true
   ∧ matches_prefecture (entity_tags e) (pref_filter self) = true
   ∧ ∃ f, geometry (node_coords self) e = Some (coordinates f)
          ∧ handle self e = append self f)
  ∨ ((is_sushi_shop (entity_tags e) = false
      ∨ matches_prefecture (entity_tags e) (pref_filter self) = false
      ∨ geometry (node_coords self) e = None)
     ∧ handle self e = self).
Proof.
  destruct e as [n|w|r]; simpl.
  - unfold node. destruct (n_location n) as [[lon lat]|]; [|right; tauto].
    destruct (is_sushi_shop (n_tags n)); simpl; [|right; tauto].
    destruct (matches_prefecture (n_tags n) (pref_filter self)); simpl;
      [|right; tauto].
    left. repeat split. eexists. split; [|reflexivity]. reflexivity.
  - unfold way, resolved_members. simpl.
    destruct (is_sushi_shop (w_tags w)); simpl; [|right; tauto].
    destruct (matches_prefecture (w_tags w) (pref_filter self)); simpl;
      [|right; tauto].
    destruct (omap _ (w_nodes w)) as [|c cs]; [right; tauto|].
    left. repeat split. eexists. split; [|reflexivity]. reflexivity.
  - unfold relation, resolved_members. simpl. rewrite relation_coords.
    destruct (is_sushi_shop (r_tags r)); simpl; [|right; tauto].
    destruct (matches_prefecture (r_tags r) (pref_filter self)); simpl;
      [|right; tauto].
    destruct (omap _ (map m_ref _)) as [|c cs]; [right; tauto|].
    left. repeat split. eexists. split; [|reflexivity]. reflexivity.
Qed.

Lemma handle_fields (self : t) (e : Entity num) :
  node_coords (handle self e) = node_coords self
  ∧ pref_filter (handle self e) = pref_filter self.
Proof.
  destruct (handle_cases self e) as [(_ & _ & f & _ & ->) | [_ ->]]; done.
Qed.

Lemma handle_appends_only_through_gates (self : t) (e : Entity num) (f : Feature num) :
  handle self e = append self f → passed_gates self e f.
Proof.
  intros H. destruct (handle_cases self e) as [(Hs & Hm & g & Hg & Hh) | [_ Hh]].
  - rewrite Hh in H. apply append_inj in H as ->.
    repeat split; try done. apply geometry_resolvable. by rewrite Hg.
  - rewrite Hh in H. by apply append_neq in H.
Qed.

Lemma apply_file_features (input : list (Entity num)) (self : t) (f : Feature num) :
  f ∈ features (apply_file self input) →
  f ∈ features self ∨ ∃ e, e ∈ input ∧ passed_gates self e f.
Proof.
  revert self. induction input as [|e es IH]; intros self; simpl; [tauto|].
  intros Hf. apply IH in Hf as [Hf | [e' [Hin Hg]]].
  - destruct (handle_cases self e) as [(Hs & Hm & g & Hg & Hh) | [_ Hh]].
    + rewrite Hh in Hf. simpl in Hf. apply elem_of_app in Hf as [Hf|Hf]; [tauto|].
      apply list_elem_of_singleton in Hf as ->. right. exists e.
      split; [left|]. by apply handle_appends_only_through_gates.
    + rewrite Hh in Hf. tauto.
  - right. exists e'. split; [by right|].
    unfold passed_gates in *.
    by destruct (handle_fields self e) as [<- <-].
Qed.
(** C6.  A handler appends a feature only for an entity that passes the
    classifier, passes the locality filter and has a resolvable geometry
    (a valid location for a point, a member the index resolves for a
    composite), and the feature carries that geometry; in every other case
    the handler leaves its state as it was.  Hence every feature of a run
    comes from an entity of the input that passed the three gates. *)
Theorem feature_only_through_three_gates (self : t) (e : Entity num) :
  (∀ f, handle self e = append self f → passed_gates self e f)
  ∧ (handle self e = self ∨ ∃ f, handle self e = append self f)
  ∧ (¬ (is_sushi_shop (entity_tags e) = true
        ∧ matches_prefecture (entity_tags e) (pref_filter self) = true
        ∧ resolvable (node_coords self) e) →
     handle self e = self)
  ∧ (∀ input f, f ∈ features (apply_file self input) →
       f ∈ features self ∨ ∃ e', e' ∈ input ∧ passed_gates self e' f).
Proof.
  split; [apply handle_appends_only_through_gates|].
  split; [|split; [|intros input f; apply apply_file_features]].
  - destruct (handle_cases self e) as [(_ & _ & f & _ & Hh) | [_ Hh]]; eauto.
  - intros Hno.
    destruct (handle_cases self e) as [(Hs & Hm & f & Hg & Hh) | [_ Hh]]; [|done].
    exfalso. apply Hno. repeat split; try done.
    apply geometry_resolvable. by rewrite Hg.
Qed.

Lemma composite_centroid_general (self : t) (e : Entity num) :
  is_composite e = true →
  is_sushi_shop (entity_tags e) = true →
  matches_prefecture (entity_tags e) (pref_filter self) = true →
  (resolved_members (node_coords self) e = [] → handle self e = self)
  ∧ (resolved_members (node_coords self) e ≠ [] →
     ∃ f, handle self e = append self f
          ∧ coordinates f = mean (resolved_members (node_coords self) e)).
Proof.
  intros Hc Hs Hm.
  assert (geometry (node_coords self) e =
          match resolved_members (node_coords self) e with
          | [] => None
          | coords => Some (mean coords)
          end) as Hgeo by (by destruct e).
  destruct (handle_cases self e) as [(_ & _ & f & Hg & Hh) | [Hfail Hh]].
  - rewrite Hgeo in Hg. split.
    + intros Hnil. rewrite Hnil in Hg. discriminate.
    + intros Hne. exists f. split; [done|].
      destruct (resolved_members _ _); [done|]. by injection Hg as <-.
  - split; [done|]. intros Hne. exfalso.
    destruct Hfail as [Hf | [Hf | Hf]]; [congruence | congruence |].
    rewrite Hgeo in Hf. by destruct (resolved_members _ _).
Qed.
End ExtractorFacts.

(** C2.  For a way or a relation that passes the classifier and the
    locality filter: when none of its members resolves through the
    coordinate index, no feature is emitted (the list of features stays as
    it was); otherwise exactly one feature is added at the end of the list
    of features, and its geometry is the sum of the resolved longitudes
    divided by their number and the sum of the resolved latitudes divided
    by their number.  In binary64 arithmetic, members resolving to (0,0)
    and (2,2) give a feature with geometry (1,1). *)
Theorem composite_centroid :
  (∀ (UD : UnicodeData) (num : Type) (PA : PyArith num)
     (self : SushiExtractor.t) (e : Entity num),
      is_composite e = true →
      is_sushi_shop (entity_tags e) = true →
      matches_prefecture (entity_tags e) (SushiExtractor.pref_filter self) = true →
      (resolved_members (SushiExtractor.node_coords self) e = [] →
       SushiExtractor.handle self e = self
       ∧ SushiExtractor.features (SushiExtractor.handle self e)
         = SushiExtractor.features self)
      ∧ (resolved_members (SushiExtractor.node_coords self) e ≠ [] →
         ∃ f, SushiExtractor.features (SushiExtractor.handle self e)
              = SushiExtractor.features self ++ [f]
              ∧ f ∈ SushiExtractor.features (SushiExtractor.handle self e)
              ∧ SushiExtractor.handle self e = SushiExtractor.append self f
              ∧ coordinates f
                = mean (resolved_members (SushiExtractor.node_coords self) e)
              ∧ coordinates f
                = (py_truediv
                     (py_sum (map fst (resolved_members
                                         (SushiExtractor.node_coords self) e)))
                     (length (resolved_members
                                (SushiExtractor.node_coords self) e)),
                   py_truediv
                     (py_sum (map snd (resolved_members
                                         (SushiExtractor.node_coords self) e)))
                     (length (resolved_members
                                (SushiExtractor.node_coords self) e)))))
  ∧ (∀ (UD : UnicodeData) (self : SushiExtractor.t) (e : Entity float),
      is_composite e = true →
      is_sushi_shop (entity_tags e) = true →
      matches_prefecture (entity_tags e) (SushiExtractor.pref_filter self) = true →
      resolved_members (SushiExtractor.node_coords self) e
        = [(0, 0); (2, 2)]%float →
      ∃ f, SushiExtractor.features
             (@SushiExtractor.handle UD float float_arith self e)
           = SushiExtractor.features self ++ [f]
           ∧ @SushiExtractor.handle UD float float_arith self e
             = SushiExtractor.append self f
           ∧ coordinates f = (1, 1)%float).
Proof.
  split.
  - intros UD num PA self e Hc Hs Hm.
    destruct (composite_centroid_general self e Hc Hs Hm) as [Hnone Hsome].
    split.
    + intros Hnil. rewrite (Hnone Hnil). done.
    + intros Hne. destruct (Hsome Hne) as [f [Hh Hf]]. exists f.
      assert (SushiExtractor.features (SushiExtractor.handle self e)
              = SushiExtractor.features self ++ [f]) as Hfeat
          by (rewrite Hh; reflexivity).
      split; [exact Hfeat|]. split.
      * rewrite Hfeat. apply elem_of_app. right. left.
      * split; [exact Hh|]. split; [exact Hf|]. rewrite Hf. reflexivity.
  - intros UD self e Hc Hs Hm Hres.
    destruct (@composite_centroid_general UD float float_arith self e Hc Hs Hm)
      as [_ Hmean].
    destruct Hmean as [f [Hh Hf]]; [by rewrite Hres|].
    exists f. split; [rewrite Hh; reflexivity|]. split; [done|].
    rewrite Hf, Hres. vm_compute. reflexivity.
Qed.

(** A way over the nodes 1, 5 and 2; the index knows 1 at (0,0) and 2 at
    (2,2), and 5 is dangling. *)
Lemma composite_centroid_witness :
  let tags : Tags := {[ u "amenity" := u "restaurant"; u "cuisine" := u "sushi" ]} in
  let index : gmap Z (float * float) :=
    {[ 1%Z := (0, 0)%float; 2%Z := (2, 2)%float ]} in
  let self := SushiExtractor.init index None in
  let e := EWay {| w_id := 7; w_tags := tags; w_nodes := [1%Z; 5%Z; 2%Z] |} in
  ∃ f, SushiExtractor.features
         (@SushiExtractor.handle ascii_unicode_data float float_arith self e)
       = SushiExtractor.features self ++ [f]
       ∧ @SushiExtractor.handle ascii_unicode_data float float_arith self e
         = SushiExtractor.append self f
       ∧ coordinates f = (1, 1)%float.
Proof.
  intros tags index self e.
  apply (proj2 composite_centroid ascii_unicode_data self e);
    vm_compute; reflexivity.
Defined.

(* ===================================================================== *)
(** ** Further properties: classifier, locality filter, reading name *)
(* ===================================================================== *)

Section ClassifierMore.
Context {UD : UnicodeData}.

(** X9.  A restaurant or a fast-food place whose cuisine mentions sushi, in any
    mix of upper and lower case and among other cuisines, is accepted. *)
Theorem sushi_cuisine_accepted (tags : Tags) :
  ascii_case_law →
  tag tags "amenity" = u "restaurant" ∨ tag tags "amenity" = u "fast_food" →
  contains_ignoring_ascii_case (u "sushi") (tag tags "cuisine") →
  is_sushi_shop tags = true.
Proof.
  intros Hlaw Ham Hc. apply is_sushi_shop_conditions.
  assert (cuisine_has_sushi tags) as Hsushi.
  { apply latin_keyword_survives_lower; [done | | done].
    vm_compute. repeat constructor. }
  tauto.
Qed.

Lemma substring_nil_r (p : pystr) : substring p [] → p = [].
Proof.
  intros [pre [post H]]. symmetry in H.
  apply app_eq_nil in H as [_ H]. by apply app_eq_nil in H as [H _].
Qed.

(** X10.  What the classifier never accepts: an entity that is neither a
    restaurant, nor fast food, nor a seafood shop; an entity with neither
    a cuisine nor a name; and a fast-food place without a cuisine,
    whatever its name says (the name counts for restaurants and seafood
    shops only). *)
Theorem is_sushi_shop_rejects (tags : Tags) :
  (tag tags "amenity" ≠ u "restaurant" →
   tag tags "amenity" ≠ u "fast_food" →
   tag tags "shop" ≠ u "seafood" →
   is_sushi_shop tags = false)
  ∧ (tag tags "cuisine" = [] → tag tags "name" = [] →
     is_sushi_shop tags = false)
  ∧ (tag tags "amenity" = u "fast_food" →
     tag tags "shop" ≠ u "seafood" →
     tag tags "cuisine" = [] →
     is_sushi_shop tags = false).
Proof.
  assert (tag tags "cuisine" = [] → ¬ cuisine_has_sushi tags) as Hcuisine.
  { intros Hc. unfold cuisine_has_sushi. rewrite Hc, lower_nil.
    intros H%substring_nil_r. discriminate. }
  split; [|split].
  - intros H1 H2 H3. apply not_true_is_false.
    rewrite is_sushi_shop_conditions. tauto.
  - intros Hc Hn. apply not_true_is_false.
    rewrite is_sushi_shop_conditions. apply Hcuisine in Hc.
    assert (¬ name_has_sushi_keyword tags) as Hname.
    { unfold name_has_sushi_keyword. rewrite Hn, lower_nil.
      intros [kw [Hkw Hsub%substring_nil_r]]. subst kw.
      unfold sushi_keywords in Hkw. rewrite !elem_of_cons in Hkw.
      rewrite elem_of_nil in Hkw. intuition discriminate. }
    tauto.
  - intros Ha Hs Hc. apply not_true_is_false.
    rewrite is_sushi_shop_conditions. apply Hcuisine in Hc.
    rewrite Ha. intuition discriminate.
Qed.
End ClassifierMore.

Lemma sushi_cuisine_accepted_witness :
  @is_sushi_shop ascii_unicode_data
     {[ u "amenity" := u "fast_food"; u "cuisine" := u "ramen;Sushi" ]} = true.
Proof.
  apply (@sushi_cuisine_accepted ascii_unicode_data).
  - exact ascii_unicode_data_ascii_law.
  - right. reflexivity.
  - exists (u "Sushi"). split; [reflexivity|].
    exists (u "ramen;"), []. reflexivity.
Defined.

Lemma prefecture_variants_nonempty (k : pystr) (names : list pystr) :
  PREFECTURE_MAP !! k = Some names → Forall (fun v => v ≠ []) names.
Proof.
  intros H. apply elem_of_list_to_map_2, list_elem_of_In in H.
  set (ok := fun kv : pystr * list pystr =>
               forallb (fun v : pystr => negb (bool_decide (v = []))) (snd kv)).
  assert (ok (k, names) = true) as Hok.
  { revert H. generalize (k, names). apply forallb_forall.
    vm_compute. reflexivity. }
  unfold ok in Hok. simpl in Hok. apply Forall_forall. intros v Hv.
  rewrite forallb_forall in Hok. apply list_elem_of_In, Hok in Hv.
  apply negb_true_iff, bool_decide_eq_false in Hv. exact Hv.
Qed.

Section LocalityMore.
Context {UD : UnicodeData}.

(** X11.  The empty token is a configured filter that accepts every entity. *)
Theorem matches_prefecture_empty_token (tags : Tags) :
  matches_prefecture tags (Some []) = true.
Proof.
  rewrite matches_prefecture_variants. unfold accepted_variants.
  change (lower []) with ([] : pystr).
  assert (PREFECTURE_MAP !! ([] : pystr) = None) as -> by (vm_compute; reflexivity).
  assert (∀ s, contains [] s = true) as Hnil by (by intros [|c s]).
  unfold address_fields. simpl. by rewrite Hnil.
Qed.

(** X12.  An entity without address tags passes no filter with a token. *)
Theorem matches_prefecture_needs_address (tags : Tags) (pf : pystr) :
  pf ≠ [] →
  tag tags "addr:prefecture" = [] →
  tag tags "addr:full" = [] →
  tag tags "addr:city" = [] →
  matches_prefecture tags (Some pf) = false.
Proof.
  intros Hpf H1 H2 H3. apply not_true_is_false.
  rewrite matches_prefecture_iff.
  intros [field [v [Hf [Hv Hsub]]]].
  assert (tag tags field = []) as Hempty.
  { unfold address_fields in Hf. rewrite !elem_of_cons, elem_of_nil in Hf.
    destruct Hf as [->|[->|[->|[]]]]; assumption. }
  rewrite Hempty in Hsub. apply substring_nil_r in Hsub. subst v.
  unfold accepted_variants in Hv.
  destruct (PREFECTURE_MAP !! lower pf) as [names|] eqn:Hk; simpl in Hv.
  - apply prefecture_variants_nonempty in Hk.
    rewrite Forall_forall in Hk. by apply (Hk [] Hv).
  - apply list_elem_of_singleton in Hv. congruence.
Qed.
End LocalityMore.

Lemma matches_prefecture_needs_address_witness :
  @matches_prefecture ascii_unicode_data
     {[ u "name" := u "Sushi Tokyo" ]} (Some (u "tokyo")) = false.
Proof.
  apply (@matches_prefecture_needs_address ascii_unicode_data);
    [discriminate | reflexivity..].
Defined.

Lemma py_or_cases (x : option pystr) (y : pystr) :
  (default [] x = [] ∧ py_or x y = y) ∨ (x = Some (py_or x y) ∧ py_or x y ≠ []).
Proof. destruct x as [[|c s]|]; simpl; [left | right | left]; done. Qed.

Lemma py_or_chain (xs : list (option pystr)) :
  (foldr py_or [] xs = [] ↔ Forall (fun x => default [] x = []) xs)
  ∧ (foldr py_or [] xs ≠ [] → Some (foldr py_or [] xs) ∈ xs).
Proof.
  induction xs as [|x xs [IH1 IH2]]; simpl.
  - split; [split; [constructor | done] | done].
  - destruct (py_or_cases x (foldr py_or [] xs)) as [[Hx ->] | [Hx Hne]].
    + rewrite IH1. split.
      * split; [intros H; by constructor | by intros [_ ?]%Forall_cons_1].
      * intros H. right. apply IH2. by rewrite IH1.
    + split; [|intros _; rewrite <- Hx; left].
      split; [done|]. intros [Hd _]%Forall_cons_1.
      rewrite Hx in Hd. simpl in Hd. done.
Qed.

(** X13.  The reading name is empty exactly when none of the four candidate
    tags has a value, and is otherwise the value of one of them. *)
Theorem name_reading_empty_iff (id : pystr) (tags : Tags) :
  (name_reading (extract_properties id tags) = [] ↔
   ∀ k, k ∈ reading_tags → tag tags k = [])
  ∧ (name_reading (extract_properties id tags) ≠ [] →
     ∃ k, k ∈ reading_tags
          ∧ tags !! u k = Some (name_reading (extract_properties id tags))).
Proof.
  change (name_reading (extract_properties id tags))
    with (foldr py_or [] ((fun k => tags !! u k) <$> reading_tags)).
  destruct (py_or_chain ((fun k => tags !! u k) <$> reading_tags)) as [Hnil Hin].
  split.
  - rewrite Hnil, Forall_fmap, Forall_forall. reflexivity.
  - intros Hne. apply Hin, list_elem_of_fmap in Hne as [k [Hk Hin']]. eauto.
Qed.

(* ===================================================================== *)
(** ** Further properties: the coordinate index *)
(* ===================================================================== *)

Section NodeCollectorFacts.
Context {num : Type}.

Lemma node_collector_fold_lookup (input : list (Entity num))
      (m : gmap Z (num * num)) (id : Z) (c : num * num) :
  fold_left NodeCollector.handle input m !! id = Some c →
  m !! id = Some c
  ∨ ∃ n, ENode n ∈ input ∧ n_id n = id ∧ n_location n = Some c.
Proof.
  revert m. induction input as [|e es IH]; intros m; simpl; [tauto|].
  intros H. apply IH in H as [H | [n [Hin Hn]]].
  - destruct e as [n|w|r]; simpl in H; [|tauto..].
    unfold NodeCollector.node in H.
    destruct (n_location n) as [[lon lat]|] eqn:Hloc; [|tauto].
    destruct (decide (n_id n = id)) as [Heq|Hne].
    + rewrite Heq, lookup_insert_eq in H. injection H as <-.
      right. exists n. split; [left|]. by rewrite Hloc.
    + rewrite lookup_insert_ne in H by done. tauto.
  - right. exists n. split; [by right | done].
Qed.

Lemma node_collector_fold_dom (input : list (Entity num))
      (m : gmap Z (num * num)) (id : Z) :
  is_Some (fold_left NodeCollector.handle input m !! id) ↔
  is_Some (m !! id)
  ∨ ∃ n, ENode n ∈ input ∧ n_id n = id ∧ is_Some (n_location n).
Proof.
  revert m. induction input as [|e es IH]; intros m; simpl.
  - split; [tauto|]. intros [H|[n [Hin _]]]; [done|]. by apply elem_of_nil in Hin.
  - rewrite IH. split.
    + intros [H | [n [Hin Hn]]].
      * destruct e as [n|w|r]; simpl in H; [|tauto..].
        unfold NodeCollector.node in H.
        destruct (n_location n) as [[lon lat]|] eqn:Hloc; [|tauto].
        destruct (decide (n_id n = id)) as [Heq|Hne].
        -- right. exists n. split; [left|]. rewrite Hloc. eauto.
        -- rewrite lookup_insert_ne in H by done. tauto.
      * right. exists n. split; [by right | done].
    + intros [H | [n [Hin [Hid Hloc]]]].
      * left. destruct e as [n|w|r]; simpl; [|done..].
        unfold NodeCollector.node. destruct (n_location n) as [[lon lat]|]; [|done].
        destruct (decide (n_id n = id)) as [Heq|Hne].
        -- rewrite Heq, lookup_insert_eq. eauto.
        -- by rewrite lookup_insert_ne.
      * apply elem_of_cons in Hin as [<-|Hin].
        -- left. simpl. unfold NodeCollector.node.
           destruct Hloc as [[lon lat] Hloc]. rewrite Hloc, Hid, lookup_insert_eq. eauto.
        -- right. eauto.
Qed.

Lemma node_collector_fold_frame (input : list (Entity num))
      (m : gmap Z (num * num)) (id : Z) :
  (∀ n, ENode n ∈ input → n_id n = id → n_location n = None) →
  fold_left NodeCollector.handle input m !! id = m !! id.
Proof.
  revert m. induction input as [|e es IH]; intros m Hno; simpl; [done|].
  rewrite IH by (intros n Hin; apply Hno; by right).
  destruct e as [n|w|r]; simpl; [|done..].
  unfold NodeCollector.node. destruct (n_location n) as [[lon lat]|] eqn:Hloc; [|done].
  apply lookup_insert_ne. intros Heq.
  specialize (Hno n (list_elem_of_here _ _) Heq). congruence.
Qed.

(** X1.  The index holds an id exactly when the input has a node of that id
    with a valid location, and what it holds is the location of such a
    node; ways, relations and nodes without a valid location leave no
    trace. *)
Theorem node_collector_index (input : list (Entity num)) (id : Z) :
  (∀ c, NodeCollector.apply_file input !! id = Some c →
        ∃ n, ENode n ∈ input ∧ n_id n = id ∧ n_location n = Some c)
  ∧ (is_Some (NodeCollector.apply_file input !! id) ↔
     ∃ n, ENode n ∈ input ∧ n_id n = id ∧ is_Some (n_location n)).
Proof.
  unfold NodeCollector.apply_file. split.
  - intros c H. apply node_collector_fold_lookup in H as [H|H]; [|done].
    by rewrite lookup_empty in H.
  - rewrite node_collector_fold_dom, lookup_empty. split; [|eauto].
    intros [H|H]; [by destruct H | done].
Qed.

(** X2.  When several nodes carry one id, the index keeps the location of the
    last valid one. *)
Theorem node_collector_last_wins (pre post : list (Entity num)) (n : Node num)
        (c : num * num) :
  n_location n = Some c →
  (∀ n', ENode n' ∈ post → n_id n' = n_id n → n_location n' = None) →
  NodeCollector.apply_file (pre ++ ENode n :: post) !! n_id n = Some c.
Proof.
  intros Hloc Hpost. unfold NodeCollector.apply_file.
  rewrite fold_left_app. simpl. rewrite node_collector_fold_frame by done.
  unfold NodeCollector.node. rewrite Hloc. destruct c as [lon lat].
  apply lookup_insert_eq.
Qed.
End NodeCollectorFacts.

(* ===================================================================== *)
(** ** Further properties: the extraction pass and the whole run *)
(* ===================================================================== *)

Section PassFacts.
Context {UD : UnicodeData} {num : Type} {PA : PyArith num}.

Import SushiExtractor.

Lemma handle_entity_feature (self : t) (e : Entity num) :
  handle self e =
  match entity_feature (node_coords self) (pref_filter self) e with
  | Some f => append self f
  | None => self
  end.
Proof.
  unfold entity_feature. destruct e as [n|w|r]; simpl.
  - unfold node. destruct (n_location n) as [[lon lat]|].
    + destruct (is_sushi_shop (n_tags n)); simpl; [|done].
      by destruct (matches_prefecture (n_tags n) (pref_filter self)).
    + by destruct (is_sushi_shop (n_tags n) && matches_prefecture _ _).
  - unfold way, resolved_members. simpl.
    destruct (is_sushi_shop (w_tags w)); simpl; [|done].
    destruct (matches_prefecture (w_tags w) (pref_filter self)); simpl; [|done].
    by destruct (omap _ (w_nodes w)).
  - unfold relation, resolved_members. simpl. rewrite relation_coords.
    destruct (is_sushi_shop (r_tags r)); simpl; [|done].
    destruct (matches_prefecture (r_tags r) (pref_filter self)); simpl; [|done].
    by destruct (omap _ (map m_ref _)).
Qed.

Lemma apply_file_fields (self : t) (input : list (Entity num)) :
  node_coords (apply_file self input) = node_coords self
  ∧ pref_filter (apply_file self input) = pref_filter self.
Proof.
  revert self. induction input as [|e es IH]; intros self; [done|].
  cbn [apply_file fold_left]. fold (apply_file (handle self e) es).
  destruct (IH (handle self e)) as [-> ->]. apply handle_fields.
Qed.

Lemma apply_file_features_omap (self : t) (input : list (Entity num)) :
  features (apply_file self input)
  = features self
    ++ omap (entity_feature (node_coords self) (pref_filter self)) input.
Proof.
  revert self. induction input as [|e es IH]; intros self.
  - simpl. by rewrite app_nil_r.
  - cbn [apply_file fold_left]. fold (apply_file (handle self e) es).
    rewrite IH. destruct (handle_fields self e) as [-> ->].
    rewrite handle_entity_feature. cbn [omap list_omap].
    destruct (entity_feature _ _ e) as [f|]; simpl; [|done].
    by rewrite <- app_assoc.
Qed.

(** X3.  The pass is a map-and-filter over the stream: each entity
    contributes at most one feature, decided by the entity, the index and
    the filter alone; features come out in stream order after those
    already held, and the index and the filter are left as they were. *)
Theorem apply_file_omap (self : t) (input : list (Entity num)) :
  features (apply_file self input)
  = features self
    ++ omap (entity_feature (node_coords self) (pref_filter self)) input
  ∧ node_coords (apply_file self input) = node_coords self
  ∧ pref_filter (apply_file self input) = pref_filter self.
Proof.
  split.
  - apply apply_file_features_omap.
  - apply apply_file_fields.
Qed.

Lemma entity_feature_unfiltered (index : gmap Z (num * num)) (pf : option pystr)
      (e : Entity num) (f : Feature num) :
  entity_feature index pf e = Some f → entity_feature index None e = Some f.
Proof.
  unfold entity_feature. simpl.
  destruct (is_sushi_shop (entity_tags e)); simpl; [|done].
  by destruct (matches_prefecture (entity_tags e) pf).
Qed.

Lemma omap_sublist {A B : Type} (g h : A → option B) (l : list A) :
  (∀ x y, g x = Some y → h x = Some y) →
  omap g l `sublist_of` omap h l.
Proof.
  intros Hgh. induction l as [|x l IH]; [constructor|].
  cbn [omap list_omap]. destruct (g x) as [y|] eqn:Hg.
  - rewrite (Hgh x y Hg). by apply sublist_skip.
  - destruct (h x); [by apply sublist_cons | done].
Qed.

(** X4.  Configuring a filter only removes features: the filtered output is the
    unfiltered one with some features left out, order kept. *)
Theorem pref_filter_only_removes (index : gmap Z (num * num)) (pf : option pystr)
        (input : list (Entity num)) :
  features (apply_file (init index pf) input)
  `sublist_of` features (apply_file (init index None) input).
Proof.
  rewrite !apply_file_features_omap. simpl.
  apply omap_sublist. intros e f. apply entity_feature_unfiltered.
Qed.

(** X5.  Every emitted feature is a restaurant, a fast-food place or a seafood
    shop, is marked with the source OSM, and carries the identifier and
    the name of an entity of the input. *)
Theorem emitted_feature_category (index : gmap Z (num * num)) (pf : option pystr)
        (input : list (Entity num)) :
  Forall (fun f =>
            (amenity (properties f) = u "restaurant"
             ∨ amenity (properties f) = u "fast_food"
             ∨ shop (properties f) = u "seafood")
            ∧ source (properties f) = u "OSM"
            ∧ ∃ e, e ∈ input
                   ∧ osm_id (properties f)
                     = qualified_id (entity_kind e) (entity_id e)
                   ∧ name (properties f) = tag (entity_tags e) "name")
         (features (apply_file (init index pf) input)).
Proof.
  rewrite apply_file_features_omap. simpl.
  apply Forall_forall. intros f Hf.
  apply list_elem_of_omap in Hf as [e [Hin He]].
  unfold entity_feature in He.
  destruct (is_sushi_shop (entity_tags e)) eqn:Hs; simpl in He; [|done].
  destruct (matches_prefecture _ _); [|done].
  destruct (geometry index e); [|done]. injection He as <-. simpl.
  split; [|split; [done | by exists e]].
  apply is_sushi_shop_conditions in Hs. tauto.
Qed.

Lemma omap_all_none {A B : Type} (g : A → option B) (l : list A) :
  (∀ x, x ∈ l → g x = None) → omap g l = [].
Proof.
  induction l as [|x l IH]; intros H; [done|].
  cbn [omap list_omap]. rewrite (H x) by left. apply IH.
  intros y Hy. apply H. by right.
Qed.

(** X6.  A relation with no member of type ['n'] is never emitted, whatever
    the index holds under the ids of its members. *)
Theorem relation_without_node_members (self : t) (r : Relation) :
  (∀ m, m ∈ r_members r → m_type m ≠ type_n) →
  relation self r = self.
Proof.
  intros Hm. unfold relation.
  destruct (negb (is_sushi_shop (r_tags r))); [done|].
  destruct (negb (matches_prefecture (r_tags r) (pref_filter self))); [done|].
  rewrite omap_all_none; [done|].
  intros m Hin. by rewrite bool_decide_eq_false_2 by (by apply Hm).
Qed.
End PassFacts.

Section MainFacts.
Context {UD : UnicodeData} {num : Type} {PA : PyArith num} {PK : PyKey num}.

Lemma main_features_raw (input : list (Entity num)) (pref : option pystr) :
  main_features input pref true
  = omap (entity_feature (NodeCollector.apply_file input) pref) input.
Proof.
  unfold main_features. simpl.
  by rewrite apply_file_features_omap.
Qed.

(** X7.  Every feature of the output, deduplicated or not, comes from an
    entity of the input that passed the classifier and the filter and
    whose geometry resolved against the index of the whole input. *)
Theorem main_features_sound (input : list (Entity num)) (pref : option pystr)
        (no_dedup : bool) :
  Forall (fun f =>
            ∃ e, e ∈ input
                 ∧ entity_feature (NodeCollector.apply_file input) pref e = Some f)
         (main_features input pref no_dedup).
Proof.
  apply Forall_forall. intros f Hf.
  assert (f ∈ main_features input pref true) as Hraw.
  { destruct no_dedup; [done|]. unfold main_features in *. simpl in *.
    rewrite deduplicate_features_unfold in Hf.
    eapply elem_of_sublist; [exact Hf | apply dedup_from_sublist]. }
  rewrite main_features_raw in Hraw.
  by apply list_elem_of_omap in Hraw.
Qed.

(** X8.  The two passes of [main]: a qualifying way is emitted as soon as one
    of its nodes has a valid location somewhere in the stream, before or
    after the way, and its geometry is resolved against the index of the
    whole stream. *)
Theorem way_resolves_forward_references (input : list (Entity num))
        (pref : option pystr) (w : Way) (n : Node num) :
  EWay w ∈ input → ENode n ∈ input →
  n_id n ∈ w_nodes w → is_Some (n_location n) →
  is_sushi_shop (w_tags w) = true →
  matches_prefecture (w_tags w) pref = true →
  ∃ f, f ∈ SushiExtractor.features
             (SushiExtractor.apply_file
                (SushiExtractor.init (NodeCollector.apply_file input) pref) input)
       ∧ osm_id (properties f) = qualified_id "way" (w_id w)
       ∧ Some (coordinates f)
         = geometry (NodeCollector.apply_file input) (EWay w).
Proof.
  intros Hw Hn Href Hloc Hs Hm.
  assert (resolvable (NodeCollector.apply_file input) (EWay w)) as Hres.
  { exists (n_id n). split; [done|].
    apply node_collector_fold_dom. right. eauto. }
  apply geometry_resolvable in Hres as [point Hg].
  eexists. split; [|split].
  - rewrite apply_file_features_omap. simpl.
    apply list_elem_of_omap. exists (EWay w).
    split; [done|]. unfold entity_feature. cbn [entity_tags].
    rewrite Hs, Hm, Hg. reflexivity.
  - reflexivity.
  - by rewrite Hg.
Qed.
End MainFacts.

(** A way listed before the only node it refers to. *)
Lemma way_resolves_forward_references_witness :
  let tags : Tags := {[ u "amenity" := u "restaurant"; u "cuisine" := u "sushi" ]} in
  let w := {| w_id := 7; w_tags := tags; w_nodes := [1%Z] |} in
  let n := {| n_id := 1; n_location := Some (139.5, 35.5)%float; n_tags := ∅ |} in
  let input := [EWay w; ENode n] in
  ∃ f, f ∈ @SushiExtractor.features float
             (@SushiExtractor.apply_file ascii_unicode_data float float_arith
                (SushiExtractor.init (NodeCollector.apply_file input) None) input)
       ∧ osm_id (properties f) = qualified_id "way" 7
       ∧ Some (coordinates f)
         = @geometry float float_arith (NodeCollector.apply_file input) (EWay w).
Proof.
  intros tags w n input.
  apply (@way_resolves_forward_references ascii_unicode_data float float_arith
           input None w n).
  - left.
  - right. left.
  - left.
  - by eexists.
  - vm_compute. reflexivity.
  - reflexivity.
Defined.

(** A relation whose only member is a way, under an id the index knows. *)
Lemma relation_without_node_members_witness :
  let tags : Tags := {[ u "amenity" := u "restaurant"; u "cuisine" := u "sushi" ]} in
  let index : gmap Z (float * float) := {[ 1%Z := (139.5, 35.5)%float ]} in
  let self := SushiExtractor.init index None in
  let r := {| r_id := 9; r_tags := tags;
              r_members := [{| m_type := type_w; m_ref := 1 |}] |} in
  @SushiExtractor.relation ascii_unicode_data float float_arith self r = self.
Proof.
  intros tags index self r.
  apply (@relation_without_node_members ascii_unicode_data float float_arith).
  intros m Hm. apply list_elem_of_singleton in Hm. by subst m.
Defined.

Lemma node_collector_last_wins_witness :
  let n1 := {| n_id := 1; n_location := Some (139, 35)%Z; n_tags := ∅ |} in
  let n2 := {| n_id := 1; n_location := Some (140, 36)%Z; n_tags := ∅ |} in
  let w := {| w_id := 1; w_tags := ∅; w_nodes := [1%Z] |} in
  NodeCollector.apply_file ([ENode n1] ++ ENode n2 :: [EWay w]) !! 1%Z
  = Some (140, 36)%Z.
Proof.
  intros n1 n2 w.
  apply (node_collector_last_wins [ENode n1] [EWay w] n2 (140, 36)%Z).
  - reflexivity.
  - intros n' Hin. apply list_elem_of_singleton in Hin. discriminate.
Defined.

(* ===================================================================== *)
(** ** Identifiers *)
(* ===================================================================== *)

Lemma utf8_decode_ascii (bs : list N) :
  Forall (fun b => b < 0x80) bs → utf8_decode bs = bs.
Proof.
  induction 1 as [|b bs Hb _ IH]; [done|].
  simpl. apply N.ltb_lt in Hb. by rewrite Hb, IH.
Qed.

Lemma u_inj_ascii (s1 s2 : string) :
  ascii_string s1 → ascii_string s2 → u s1 = u s2 → s1 = s2.
Proof.
  unfold u, ascii_string. intros H1 H2.
  rewrite !utf8_decode_ascii by done. intros H.
  assert (list_ascii_of_string s1 = list_ascii_of_string s2) as Hl.
  { revert H. generalize (list_ascii_of_string s1) (list_ascii_of_string s2).
    induction l as [|a l IH]; intros [|b l'] Hm; simpl in Hm; try discriminate; [done|].
    injection Hm as Hab Hm. f_equal; [|by apply IH].
    rewrite <- (ascii_N_embedding a), <- (ascii_N_embedding b). by rewrite Hab. }
  rewrite <- (string_of_list_ascii_of_string s1), <- (string_of_list_ascii_of_string s2).
  by rewrite Hl.
Qed.

Lemma pretty_N_char_ascii (d : N) : N_of_ascii (pretty_N_char d) < 0x80.
Proof. unfold pretty_N_char. repeat case_match; vm_compute; reflexivity. Qed.

Lemma pretty_N_go_ascii (x : N) (s : string) :
  ascii_string s → ascii_string (pretty_N_go x s).
Proof.
  revert s. induction (N.lt_wf_0 x) as [x _ IH]. intros s Hs.
  destruct (decide (x = 0)) as [->|Hx].
  - by rewrite pretty_N_go_0.
  - rewrite pretty_N_go_step by lia. apply IH.
    + apply N.div_lt; lia.
    + unfold ascii_string in *. simpl. constructor; [apply pretty_N_char_ascii | done].
Qed.

Lemma pretty_Z_ascii (z : Z) : ascii_string (pretty z).
Proof.
  assert (∀ x : N, ascii_string (pretty x)) as HN.
  { intros x. unfold pretty, pretty_N. case_decide; [by repeat constructor|].
    apply pretty_N_go_ascii. constructor. }
  destruct z as [|p|p]; unfold pretty, pretty_Z.
  - by repeat constructor.
  - apply HN.
  - unfold ascii_string. simpl. constructor; [vm_compute; reflexivity | apply HN].
Qed.

(** X14.  Distinct entities have distinct identifiers: the kind and the id can
    be read back from ["<kind>/<id>"]. *)
Theorem qualified_id_inj {num : Type} (e1 e2 : Entity num) :
  qualified_id (entity_kind e1) (entity_id e1)
  = qualified_id (entity_kind e2) (entity_id e2) →
  entity_kind e1 = entity_kind e2 ∧ entity_id e1 = entity_id e2.
Proof.
  unfold qualified_id.
  destruct e1 as [n1|w1|r1], e2 as [n2|w2|r2]; cbn [entity_kind entity_id];
    intros H; try (vm_compute in H; discriminate H);
    (split; [reflexivity|]);
    apply app_inv_head, app_inv_head in H;
    apply u_inj_ascii in H; try apply pretty_Z_ascii;
    by apply (inj pretty) in H.
Qed.

(* ===================================================================== *)
(** ** More on deduplication *)
(* ===================================================================== *)

Section DedupMore.
Context {num : Type} {PK : PyKey num}.

Lemma dedup_from_distinct_id (seen : list Key) (features : list (Feature num)) :
  (∀ g, g ∈ features → key_in (feature_key g) seen = false) →
  (∀ i j f g, (i < j)%nat → features !! i = Some f → features !! j = Some g →
              same_key f g = false) →
  dedup_from seen features = features.
Proof.
  revert seen. induction features as [|a fs IH]; intros seen Hseen Hpair; [done|].
  simpl. rewrite (Hseen a) by left. simpl. f_equal. apply IH.
  - intros g Hg. simpl. rewrite (Hseen g) by (by right). rewrite orb_false_r.
    apply list_elem_of_lookup in Hg as [j Hj].
    apply (Hpair 0%nat (S j) a g); [lia | done | done].
  - intros i j f g Hij Hf Hg. apply (Hpair (S i) (S j)); [lia | done..].
Qed.

(** X15.  A list without duplicates is returned as it is. *)
Theorem deduplicate_features_distinct (features : list (Feature num)) :
  (∀ i j f g, (i < j)%nat → features !! i = Some f → features !! j = Some g →
              same_key f g = false) →
  deduplicate_features features = features.
Proof.
  intros Hpair. rewrite deduplicate_features_unfold.
  by apply dedup_from_distinct_id.
Qed.

Lemma dedup_from_represents (seen : list Key) (features : list (Feature num))
      (f : Feature num) :
  f ∈ features → same_key f f = true →
  key_in (feature_key f) seen = true
  ∨ ∃ g, g ∈ dedup_from seen features ∧ same_key g f = true.
Proof.
  revert seen. induction features as [|a fs IH]; intros seen Hf Hrefl.
  - by apply elem_of_nil in Hf.
  - simpl. destruct (key_in (feature_key a) seen) eqn:Ea; simpl.
    + apply elem_of_cons in Hf as [->|Hf]; [by left | by apply IH].
    + apply elem_of_cons in Hf as [->|Hf].
      * right. exists a. split; [left | done].
      * destruct (IH (feature_key a :: seen) Hf Hrefl) as [Hin | [g [Hg Hk]]].
        -- simpl in Hin. apply orb_true_iff in Hin as [Hk|Hin]; [|by left].
           right. exists a. split; [left | done].
        -- right. exists g. split; [by right | done].
Qed.

(** X16.  No key is lost: every input feature whose key equals itself has a
    kept feature with the same key. *)
Theorem deduplicate_features_represents (features : list (Feature num))
        (f : Feature num) :
  f ∈ features → same_key f f = true →
  ∃ g, g ∈ deduplicate_features features ∧ same_key g f = true.
Proof.
  intros Hf Hrefl. rewrite deduplicate_features_unfold.
  by destruct (dedup_from_represents [] features f Hf Hrefl) as [Hin | Hg].
Qed.

(** X17.  Features that arrive later never change what was kept before them. *)
Theorem deduplicate_features_prefix (xs ys : list (Feature num)) :
  deduplicate_features xs `prefix_of` deduplicate_features (xs ++ ys).
Proof.
  unfold deduplicate_features. rewrite fold_left_app.
  destruct (fold_left dedup_step xs ([], [])) as [seen unique_features].
  rewrite dedup_fold. simpl. by eexists.
Qed.
End DedupMore.

Lemma deduplicate_features_distinct_witness :
  let p := extract_properties (u "node/1") {[ u "name" := u "X" ]} in
  let a := {| coordinates := (139, 35)%Z; properties := p |} in
  let b := {| coordinates := (140, 35)%Z; properties := p |} in
  @deduplicate_features Z int_key [a; b] = [a; b].
Proof.
  intros p a b. apply (@deduplicate_features_distinct Z int_key).
  intros [|[|i]] [|[|j]] f g Hij Hf Hg; try lia; simpl in Hf, Hg; try discriminate.
  injection Hf as <-. injection Hg as <-. vm_compute. reflexivity.
Defined.

Lemma deduplicate_features_represents_witness :
  let p := extract_properties (u "node/1") {[ u "name" := u "X" ]} in
  let a := {| coordinates := (139, 35)%Z; properties := p |} in
  let b := {| coordinates := (139, 35)%Z;
              properties := extract_properties (u "way/2") {[ u "name" := u "X" ]} |} in
  ∃ g, g ∈ @deduplicate_features Z int_key [a; b] ∧ @same_key Z int_key g b = true.
Proof.
  intros p a b. apply (@deduplicate_features_represents Z int_key).
  - right. left.
  - vm_compute. reflexivity.
Defined.

(* ===================================================================== *)
(** ** The bounding-box filter *)
(* ===================================================================== *)

Lemma in_bounds_inside_box (f : Feature float) :
  FilterTokyo.in_bounds f = true
  ↔ inside_tokyo_box (fst (coordinates f)) (snd (coordinates f)).
Proof.
  unfold FilterTokyo.in_bounds, inside_tokyo_box. cbv zeta. simpl.
  rewrite !andb_true_iff. tauto.
Qed.

Lemma tokyo_fold (features acc : list (Feature float)) :
  fold_left FilterTokyo.step features acc
  = acc ++ kept_features FilterTokyo.in_bounds features.
Proof.
  revert acc. induction features as [|f fs IH]; intros acc; simpl.
  - by rewrite app_nil_r.
  - rewrite IH. unfold FilterTokyo.step.
    destruct (FilterTokyo.in_bounds f); [by rewrite <- app_assoc | done].
Qed.

Lemma kept_features_ext (keep keep' : Feature float → bool)
      (features : list (Feature float)) :
  (∀ f, keep f = keep' f) →
  kept_features keep features = kept_features keep' features.
Proof.
  intros H. induction features as [|f fs IH]; simpl; [done|].
  by rewrite H, IH.
Qed.

(** X18.  The filter keeps exactly the features inside the box -- longitude
    between 139.50 and 139.91 and latitude between 35.53 and 35.82, the
    bounds included --, each as often as it occurs, in their order and
    unchanged; a feature on a corner of the box is kept; filtering twice
    changes nothing. *)
#[warnings="-inexact-float"]
Theorem tokyo_features_in_bounds (features : list (Feature float)) :
  (∀ keep : Feature float → bool,
      (∀ f, keep f = true
            ↔ inside_tokyo_box (fst (coordinates f)) (snd (coordinates f))) →
      FilterTokyo.tokyo_features features = kept_features keep features)
  ∧ (∀ f, f ∈ FilterTokyo.tokyo_features features ↔
          f ∈ features
          ∧ inside_tokyo_box (fst (coordinates f)) (snd (coordinates f)))
  ∧ FilterTokyo.tokyo_features features `sublist_of` features
  ∧ (∀ properties,
        FilterTokyo.tokyo_features
          [ {| coordinates := (139.50, 35.53)%float; properties := properties |};
            {| coordinates := (139.91, 35.82)%float; properties := properties |} ]
        = [ {| coordinates := (139.50, 35.53)%float; properties := properties |};
            {| coordinates := (139.91, 35.82)%float; properties := properties |} ])
  ∧ FilterTokyo.tokyo_features (FilterTokyo.tokyo_features features)
    = FilterTokyo.tokyo_features features.
Proof.
  unfold FilterTokyo.tokyo_features. rewrite !tokyo_fold. simpl.
  split; [|split; [|split; [|split]]].
  - intros keep Hkeep. apply kept_features_ext. intros f.
    apply eq_true_iff_eq. by rewrite in_bounds_inside_box, Hkeep.
  - intros f. rewrite <- in_bounds_inside_box.
    induction features as [|g gs IH]; simpl.
    + rewrite elem_of_nil. tauto.
    + destruct (FilterTokyo.in_bounds g) eqn:E.
      * rewrite !elem_of_cons, IH. split; [|tauto].
        intros [->|[? ?]]; tauto.
      * rewrite elem_of_cons, IH. split; [tauto|].
        intros [[->|?] Hf]; [congruence | tauto].
  - induction features as [|f fs IH]; simpl; [constructor|].
    destruct (FilterTokyo.in_bounds f); [by apply sublist_skip | by apply sublist_cons].
  - intros properties. vm_compute. reflexivity.
  - induction features as [|f fs IH]; simpl; [done|].
    destruct (FilterTokyo.in_bounds f) eqn:E; simpl; [|done].
    by rewrite E, IH.
Qed.

Lemma qualified_id_inj_witness :
  let a : Entity Z := ENode {| n_id := 5; n_location := None; n_tags := ∅ |} in
  let b : Entity Z :=
    ENode {| n_id := 5; n_location := Some (1, 2)%Z;
             n_tags := {[ u "name" := u "X" ]} |} in
  entity_kind a = entity_kind b ∧ entity_id a = entity_id b.
Proof.
  intros a b. apply (qualified_id_inj a b). reflexivity.
Defined.
